(** * Verification of the trading repository: backtester, risk metrics,
      portfolio optimizer and position sizing.

    Python floats are modelled by exact numbers: rationals ([Q]) wherever the
    code only adds, multiplies, divides and compares, reals ([R]) where it
    takes a square root.  A pandas / numpy NaN is modelled by [None] in an
    [option]; Python exceptions are modelled by a result type. *)

From Stdlib Require Import QArith Qabs Qround Qminmax ZArith List Lia Reals Qreals Psatz.
From stdpp Require Import gmap strings list.

(** ** Exceptions *)

Inductive exn : Type :=
  | KeyError (column : string)
  | IndexError
  | LinAlgError
  | ValueError
  | ZeroDivisionError.

Inductive result (A : Type) : Type :=
  | Ok (a : A)
  | Raise (e : exn).
Arguments Ok {A} a.
Arguments Raise {A} e.

#[export] Instance result_ret : MRet result := fun A a => Ok a.
#[export] Instance result_bind : MBind result := fun A B f m =>
  match m with
  | Ok a => f a
  | Raise e => Raise e
  end.

(** ** Rational helpers *)

Definition Qlt_bool (a b : Q) : bool := negb (Qle_bool b a).

(** ** src/backtesting/backtester.py *)

Module Backtester.
Local Open Scope Q_scope.

(** A pandas DataFrame of floats, row by row: [df.iloc[i][c]] is
    [df !! i ≫= (.!! c)]. *)
Abbreviation DataFrame := (list (gmap string Q)).

Definition iloc (df : DataFrame) (i : nat) (column : string) : result Q :=
  match df !! i with
  | None => Raise IndexError
  | Some r =>
      match r !! column with
      | None => Raise (KeyError column)
      | Some v => Ok v
      end
  end.

(** [df.iloc[i, df.columns.get_loc(column)] = v] *)
Definition set_cell (df : DataFrame) (i : nat) (column : string) (v : Q) : DataFrame :=
  alter (fun r : gmap string Q => <[column := v]> r) i df.

(** [df[column] = v] for a scalar [v]. *)
Definition set_column_scalar (df : DataFrame) (column : string) (v : Q) : DataFrame :=
  (fun r : gmap string Q => <[column := v]> r) <$> df.

(** [df[column] = values] for a sequence as long as the table. *)
Definition set_column (df : DataFrame) (column : string) (values : list Q) : DataFrame :=
  zip_with (fun (r : gmap string Q) v => <[column := v]> r) df values.

Inductive Side : Type := buy | sell | exit.

(** A trade dict; [timestamp] is the position of the bar in the index,
    [commission_paid] the key ['commission'], and [pnl] is [None] when
    the dict has no ['pnl'] key. *)
Record Trade : Type := {
  timestamp : nat;
  side : Side;
  quantity : Q;
  price : Q;
  value : Q;
  commission_paid : Q;
  pnl : option Q
}.

(** The [signal_dict] handed to the strategy's sizing function. *)
Record SignalDict : Type := {
  sd_signal : Q;
  sd_price : Q
}.

(** The two abstract methods of [BaseStrategy]. *)
Record BaseStrategy : Type := {
  generate_signals : DataFrame -> DataFrame;
  calculate_position_size : SignalDict -> DataFrame -> Q
}.

(** The constructor arguments of [Backtester]. *)
Record Config : Type := {
  strategy : BaseStrategy;
  initial_capital : Q;
  commission : Q;
  slippage : Q
}.

(** The mutable state of a run: the object's fields, the local
    [current_position] and the [results] table edited in place. *)
Record State : Type := {
  capital : Q;
  positions : gmap string Q;
  trades : list Trade;
  equity_curve : list Q;
  current_position : Q;
  results : DataFrame
}.

Section Run.
Variable cfg : Config.

Definition calculate_execution_price (signal_price : Q) (s : Side) : Q :=
  match s with
  | buy => signal_price * (1 + slippage cfg)
  | _ => signal_price * (1 - slippage cfg)
  end.

Definition calculate_commission_cost (trade_value : Q) : Q :=
  trade_value * commission cfg.

Variable data : DataFrame.
Variable price_column : string.

(** [results['signal'] = signals_df.get('signal', 0)]: the strategy's
    signal column, row-aligned with the data, 0 where it has none. *)
Definition signal_at (signals_df : DataFrame) (i : nat) : Q :=
  match signals_df !! i ≫= (.!! "signal"%string) with
  | Some s => s
  | None => 0
  end.

Definition init_results : DataFrame :=
  let signals_df := generate_signals (strategy cfg) data in
  let with_signal :=
    imap (fun i (r : gmap string Q) => <["signal"%string := signal_at signals_df i]> r) data in
  set_column_scalar
    (set_column_scalar
       (set_column_scalar with_signal "position" 0)
       "capital" (initial_capital cfg))
    "portfolio_value" (initial_capital cfg).

Definition init_state : State :=
  {| capital := initial_capital cfg;
     positions := ∅;
     trades := [];
     equity_curve := [];
     current_position := 0;
     results := init_results |}.

(** Lines 91-144: the position change of bar [i]. *)
Definition trade_step (i : nat) (current_price signal : Q) (st : State) : result State :=
  if negb (Qeq_bool signal 0) && negb (Qeq_bool signal (current_position st)) then
    if Qeq_bool (current_position st) 0 then
      let execution_price :=
        calculate_execution_price current_price (if Qlt_bool 0 signal then buy else sell) in
      let signal_dict := {| sd_signal := signal; sd_price := execution_price |} in
      let quantity :=
        calculate_position_size (strategy cfg) signal_dict (take (S i) data) in
      let trade_value := Qabs quantity * execution_price in
      let commission_cost := calculate_commission_cost trade_value in
      if Qle_bool (trade_value + commission_cost) (capital st) then
        Ok {| capital := capital st - (trade_value + commission_cost);
              positions := <[price_column := quantity]> (positions st);
              trades := trades st ++
                [{| timestamp := i;
                    side := if Qlt_bool 0 signal then buy else sell;
                    quantity := Qabs quantity;
                    price := execution_price;
                    value := trade_value;
                    commission_paid := commission_cost;
                    pnl := None |}];
              equity_curve := equity_curve st;
              current_position := signal;
              results := results st |}
      else Ok st
    else if Qeq_bool signal 0 && negb (Qeq_bool (current_position st) 0) then
      match positions st !! price_column with
      | Some quantity =>
          let execution_price :=
            calculate_execution_price current_price (if Qlt_bool 0 quantity then sell else buy) in
          let trade_value := Qabs quantity * execution_price in
          let commission_cost := calculate_commission_cost trade_value in
          pnl_value ← (if (0 <? i)%nat
                       then previous ← iloc (results st) (i - 1) price_column;
                            mret ((execution_price - previous) * quantity)
                       else mret 0);
          mret {| capital := capital st + (trade_value - commission_cost);
                  positions := delete price_column (positions st);
                  trades := trades st ++
                    [{| timestamp := i;
                        side := exit;
                        quantity := Qabs quantity;
                        price := execution_price;
                        value := trade_value;
                        commission_paid := commission_cost;
                        pnl := Some pnl_value |}];
                  equity_curve := equity_curve st;
                  current_position := 0;
                  results := results st |}
      | None => Ok st
      end
    else Ok st
  else Ok st.

(** Lines 149-152. *)
Definition mark_to_market (st : State) (current_price : Q) : Q :=
  match positions st !! price_column with
  | Some q => capital st + q * current_price
  | None => capital st
  end.

(** Lines 146-156: what every bar records. *)
Definition record_bar (i : nat) (current_price : Q) (st : State) : State :=
  let portfolio_value := mark_to_market st current_price in
  {| capital := capital st;
     positions := positions st;
     trades := trades st;
     equity_curve := equity_curve st ++ [portfolio_value];
     current_position := current_position st;
     results :=
       set_cell
         (set_cell
            (set_cell (results st) i "position" (current_position st))
            i "capital" (capital st))
         i "portfolio_value" portfolio_value |}.

(** One iteration of the loop of [run]. *)
Definition step (i : nat) (st : State) : result State :=
  current_price ← iloc (results st) i price_column;
  signal ← iloc (results st) i "signal";
  st' ← trade_step i current_price signal st;
  mret (record_bar i current_price st').

(** The first [k] iterations of [for i in range(len(results))]. *)
Fixpoint run_prefix (k : nat) : result State :=
  match k with
  | O => Ok init_state
  | S k' => run_prefix k' ≫= step k'
  end.

(** [Series.pct_change]; [None] is an entry that is no finite number: the
    first one, and a change from 0. *)
Fixpoint pct_change_from (previous : Q) (values : list Q) : list (option Q) :=
  match values with
  | [] => []
  | v :: rest =>
      (if Qeq_bool previous 0 then None else Some (v / previous - 1))
        :: pct_change_from v rest
  end.

Definition pct_change (values : list Q) : list (option Q) :=
  match values with
  | [] => []
  | v :: rest => None :: pct_change_from v rest
  end.

Definition column (df : DataFrame) (c : string) : list Q :=
  omap (fun r : gmap string Q => r !! c) df.

(** What [run] leaves behind: the returned table, its [returns] column
    (kept apart because it holds NaN) and the object's fields. *)
Record Output : Type := {
  table : DataFrame;
  returns : list (option Q);
  final : State
}.

Definition run : result Output :=
  st ← run_prefix (length init_results);
  let res := set_column (results st) "equity_curve" (equity_curve st) in
  mret {| table := res;
          returns := pct_change (column res "portfolio_value");
          final := st |}.

End Run.

(** [sum(1 for t in self.trades if t.get('pnl', 0) > 0)] *)
Definition is_winning (t : Trade) : bool :=
  Qlt_bool 0 (default 0 (pnl t)).

(** ['pnl' in t and t['pnl'] != 0] *)
Definition has_nonzero_pnl (t : Trade) : bool :=
  match pnl t with
  | Some p => negb (Qeq_bool p 0)
  | None => false
  end.

(** [_calculate_win_rate], on the trades a run left in the object. *)
Definition _calculate_win_rate (ts : list Trade) : Q :=
  if (length ts <? 2)%nat then 0
  else
    let winning_trades := length (List.filter is_winning ts) in
    let total_trades_with_pnl := length (List.filter has_nonzero_pnl ts) in
    if (total_trades_with_pnl =? 0)%nat then 0
    else inject_Z (Z.of_nat winning_trades) / inject_Z (Z.of_nat total_trades_with_pnl).

(** The quantity held under [price_column], 0 when there is no entry. *)
Definition held_quantity (price_column : string) (st : State) : Q :=
  default 0 (positions st !! price_column).

(** While flat nothing has been traded; once a position is open the log
    holds the one opening trade. *)
Definition trade_log_inv (st : State) : Prop :=
  (Qeq_bool (current_position st) 0 = true /\ trades st = [] /\ positions st = ∅) \/
  (Qeq_bool (current_position st) 0 = false /\
   exists tr, trades st = [tr] /\ side tr <> exit /\ pnl tr = None).

(** *** A two-bar run: long at bar 0, flat signal at bar 1. *)

Definition demo_strategy : BaseStrategy :=
  {| generate_signals := fun d =>
       imap (fun i (r : gmap string Q) => <["signal"%string := nth i [1; 0] 0]> r) d;
     calculate_position_size := fun _ _ => 10 |}.

Definition demo_cfg : Config :=
  {| strategy := demo_strategy;
     initial_capital := 100000;
     commission := 1 # 1000;
     slippage := 5 # 10000 |}.

Definition demo_data : DataFrame :=
  [ {[ "close"%string := 100 ]}; {[ "close"%string := 100 ]} ].

(** The states of that run after bar 0 and after bar 1, evaluated. *)
Definition state_of (r : result State) : State :=
  match r with
  | Ok st => st
  | Raise _ => init_state demo_cfg demo_data
  end.

Definition demo_after_bar0 : State :=
  Eval vm_compute in state_of (run_prefix demo_cfg demo_data "close" 1).

Definition demo_after_bar1 : State :=
  Eval vm_compute in state_of (run_prefix demo_cfg demo_data "close" 2).

(** The same strategy on an account that cannot pay for ten units. *)
Definition poor_cfg : Config :=
  {| strategy := demo_strategy;
     initial_capital := 100;
     commission := 1 # 1000;
     slippage := 5 # 10000 |}.

End Backtester.

(** ** src/risk_management/risk_metrics.py *)

Module risk_metrics.
Local Open Scope Q_scope.

(** A pandas Series of floats; [None] is a NaN entry. *)
Abbreviation Series := (list (option Q)).

Definition dropna (s : Series) : list Q := omap (fun x => x) s.

Definition sum (a : list Q) : Q := foldl Qplus 0 a.

Definition count (a : list Q) : Q := inject_Z (Z.of_nat (length a)).

(** [Series.mean] / [ndarray.mean]: NaN on an empty sequence. *)
Definition mean (a : list Q) : option Q :=
  match a with
  | [] => None
  | _ => Some (sum a / count a)
  end.

(** The sample variance (ddof = 1) under [Series.std]: NaN below two
    observations. *)
Definition var (a : list Q) : option Q :=
  match a with
  | [] | [_] => None
  | _ =>
      let m := sum a / count a in
      Some (sum ((fun x => (x - m) * (x - m)) <$> a) / (count a - 1))
  end.

(** [Series.std], exact: it is 0 on every series of equal values, where
    the floating-point one can be a rounding error away from 0. *)
Definition std (a : list Q) : option R :=
  (fun v => sqrt (Q2R v)) <$> var a.

(** [np.sort] *)
Fixpoint insert_sorted (x : Q) (a : list Q) : list Q :=
  match a with
  | [] => [x]
  | y :: rest => if Qle_bool x y then x :: a else y :: insert_sorted x rest
  end.

Definition sort (a : list Q) : list Q := foldr insert_sorted [] a.

(** [np.percentile(a, q)] with the default linear interpolation, on a
    non-empty array. *)
Definition percentile (a : list Q) (q : Q) : result Q :=
  let quantile := q / 100 in
  if Qle_bool 0 quantile && Qle_bool quantile 1 then
    let sorted := sort a in
    let n := length a in
    let virtual_index := inject_Z (Z.of_nat (n - 1)) * quantile in
    let previous_index := Z.to_nat (Qfloor virtual_index) in
    let next_index := Nat.min (S previous_index) (n - 1) in
    let gamma := virtual_index - inject_Z (Qfloor virtual_index) in
    let lower := nth previous_index sorted 0 in
    let upper := nth next_index sorted 0 in
    Ok (lower + (upper - lower) * gamma)
  else Raise ValueError.

(** The module-level [calculate_var], after [returns.dropna().values]. *)
Definition calculate_var_values (returns : list Q) (confidence_level : Q) : result Q :=
  if (length returns =? 0)%nat then Ok 0
  else
    p ← percentile returns ((1 - confidence_level) * 100);
    mret (Qabs p).

Definition calculate_var (returns : Series) (confidence_level : Q) : result Q :=
  calculate_var_values (dropna returns) confidence_level.

(** The module-level [calculate_cvar]. *)
Definition calculate_cvar (returns : Series) (confidence_level : Q) : result Q :=
  let returns := dropna returns in
  if (length returns =? 0)%nat then Ok 0
  else
    var ← calculate_var_values returns confidence_level;
    let threshold := - var in
    let tail_losses := List.filter (fun r => Qle_bool r threshold) returns in
    if (length tail_losses =? 0)%nat then Ok var
    else Ok (Qabs (sum tail_losses / count tail_losses)).

(** [Series.cumprod] *)
Fixpoint cumprod_from (acc : Q) (a : list Q) : list Q :=
  match a with
  | [] => []
  | x :: rest => let acc' := acc * x in acc' :: cumprod_from acc' rest
  end.

Definition cumprod (a : list Q) : list Q :=
  match a with
  | [] => []
  | x :: rest => x :: cumprod_from x rest
  end.

(** [Series.expanding().max()] *)
Fixpoint expanding_max_from (acc : Q) (a : list Q) : list Q :=
  match a with
  | [] => []
  | x :: rest => let acc' := Qmax acc x in acc' :: expanding_max_from acc' rest
  end.

Definition expanding_max (a : list Q) : list Q :=
  match a with
  | [] => []
  | x :: rest => x :: expanding_max_from x rest
  end.

(** Float division of two Series entries: 0 / 0 is NaN.  (A running
    maximum of 0 means a cumulative product of 0 at or before the entry,
    hence a numerator of 0.) *)
Definition drawdown_entry (c m : Q) : option Q :=
  if Qeq_bool m 0 then None else Some ((c - m) / m).

(** [Series.min]: NaN entries are skipped, NaN if nothing is left. *)
Definition series_min (s : Series) : option Q :=
  match dropna s with
  | [] => None
  | x :: rest => Some (foldl Qmin x rest)
  end.

(** *** The class [RiskMetrics] *)

Module RiskMetrics.

Record t : Type := { returns : list Q }.

(** [self.returns = returns.dropna()] *)
Definition __init__ (s : Series) : t := {| returns := dropna s |}.

(** [periods_per_year] is a positive int (252 by default):
    [np.sqrt(periods_per_year)] and [risk_free_rate / periods_per_year]. *)
Definition sqrt_periods (periods_per_year : positive) : R :=
  sqrt (IZR (Zpos periods_per_year)).

Definition per_period (risk_free_rate : Q) (periods_per_year : positive) : Q :=
  risk_free_rate / inject_Z (Zpos periods_per_year).

(** [x == 0] on a float that may be NaN. *)
Definition is_zero (x : option R) : bool :=
  match x with
  | Some v => if Req_dec_T v 0 then true else false
  | None => false
  end.

Definition calculate_sharpe_ratio (self : t) (risk_free_rate : Q) (periods_per_year : positive)
  : option R :=
  if (length (returns self) =? 0)%nat then Some 0%R
  else
    let excess_returns :=
      (fun r => r - per_period risk_free_rate periods_per_year) <$> returns self in
    if is_zero (std excess_returns) then Some 0%R
    else
      m ← mean excess_returns;
      s ← std excess_returns;
      mret (sqrt_periods periods_per_year * Q2R m / s)%R.

Definition calculate_sortino_ratio (self : t) (risk_free_rate : Q) (periods_per_year : positive)
  : option R :=
  if (length (returns self) =? 0)%nat then Some 0%R
  else
    let excess_returns :=
      (fun r => r - per_period risk_free_rate periods_per_year) <$> returns self in
    let downside_returns := List.filter (fun r => Qlt_bool r 0) excess_returns in
    if (length downside_returns =? 0)%nat || is_zero (std downside_returns) then Some 0%R
    else
      let downside_std :=
        (fun s => sqrt_periods periods_per_year * s)%R <$> std downside_returns in
      if is_zero downside_std then Some 0%R
      else
        m ← mean excess_returns;
        d ← downside_std;
        mret (sqrt_periods periods_per_year * Q2R m / d)%R.

Definition calculate_max_drawdown (self : t) : option Q :=
  if (length (returns self) =? 0)%nat then Some 0
  else
    let cumulative := cumprod ((fun r => 1 + r) <$> returns self) in
    let running_max := expanding_max cumulative in
    let drawdown := zip_with drawdown_entry cumulative running_max in
    Qabs <$> series_min drawdown.

Definition calculate_calmar_ratio (self : t) (periods_per_year : positive) : option Q :=
  if (length (returns self) =? 0)%nat then Some 0
  else
    let annual_return :=
      (fun m => m * inject_Z (Zpos periods_per_year)) <$> mean (returns self) in
    match calculate_max_drawdown self with
    | Some max_dd =>
        if Qeq_bool max_dd 0 then Some 0
        else (fun a => a / max_dd) <$> annual_return
    | None => None
    end.

(** The methods [calculate_var] and [calculate_cvar] pass [self.returns],
    a Series without NaN, to the module-level functions. *)
Definition calculate_var (self : t) (confidence_level : Q) : result Q :=
  risk_metrics.calculate_var (Some <$> returns self) confidence_level.

Definition calculate_cvar (self : t) (confidence_level : Q) : result Q :=
  risk_metrics.calculate_cvar (Some <$> returns self) confidence_level.

(** The dict returned by [get_all_metrics]; [None] is NaN. *)
Record Metrics : Type := {
  sharpe_ratio : option R;
  sortino_ratio : option R;
  max_drawdown : option Q;
  calmar_ratio : option Q;
  var_95 : Q;
  cvar_95 : Q;
  volatility : option R;
  annual_return : option Q
}.

Definition get_all_metrics (self : t) (risk_free_rate : Q) (periods_per_year : positive)
  : result Metrics :=
  v ← calculate_var self (95 # 100);
  cv ← calculate_cvar self (95 # 100);
  mret {| sharpe_ratio := calculate_sharpe_ratio self risk_free_rate periods_per_year;
          sortino_ratio := calculate_sortino_ratio self risk_free_rate periods_per_year;
          max_drawdown := calculate_max_drawdown self;
          calmar_ratio := calculate_calmar_ratio self periods_per_year;
          var_95 := v;
          cvar_95 := cv;
          volatility :=
            (fun s => s * sqrt_periods periods_per_year)%R <$> std (returns self);
          annual_return :=
            (fun m => m * inject_Z (Zpos periods_per_year)) <$> mean (returns self) |}.

End RiskMetrics.

End risk_metrics.

(** ** src/risk_management/portfolio_optimizer.py *)

Module PortfolioOptimizer.
Local Open Scope Q_scope.

(** A returns table, one Series of simple returns per asset, and a square
    ndarray, row by row. *)
Abbreviation ReturnsMatrix := (list (list Q)).
Abbreviation Matrix := (list (list Q)).

Definition sum (a : list Q) : Q := foldl Qplus 0 a.

Definition count (a : list Q) : Q := inject_Z (Z.of_nat (length a)).

(** One entry of [DataFrame.cov]: the sample covariance (ddof = 1). *)
Definition covariance (x y : list Q) : Q :=
  let mx := sum x / count x in
  let my := sum y / count y in
  sum (zip_with (fun a b => (a - mx) * (b - my)) x y) / (count x - 1).

(** [returns.cov() * 252]; [None] is the table of NaN that pandas gives
    below two observations. *)
Definition calculate_covariance_matrix (returns : ReturnsMatrix) : option Matrix :=
  if forallb (fun x => (length x <? 2)%nat) returns && negb (length returns =? 0)%nat
  then None
  else Some ((fun x => (fun y => covariance x y * 252) <$> returns) <$> returns).

(** [returns.mean() * 252] *)
Definition calculate_expected_returns (returns : ReturnsMatrix) : list (option Q) :=
  (fun x => match x with
            | [] => None
            | _ => Some (sum x / count x * 252)
            end) <$> returns.

(** *** [np.linalg.inv]: Gauss-Jordan elimination with partial pivoting on
    the matrix extended by the identity. *)

Definition identity_row (n i : nat) : list Q :=
  (fun j => if (i =? j)%nat then 1 else 0) <$> seq 0 n.

Definition augment (m : Matrix) : Matrix :=
  imap (fun i row => row ++ identity_row (length m) i) m.

(** The row of largest absolute entry in column [k], and the other rows. *)
Fixpoint extract_pivot (k : nat) (best : list Q) (rows : Matrix) : list Q * Matrix :=
  match rows with
  | [] => (best, [])
  | r :: rest =>
      if Qlt_bool (Qabs (nth k best 0)) (Qabs (nth k r 0))
      then let '(p, others) := extract_pivot k r rest in (p, best :: others)
      else let '(p, others) := extract_pivot k best rest in (p, r :: others)
  end.

Definition eliminate (k : nat) (pivot row : list Q) : list Q :=
  let c := nth k row 0 in
  zip_with (fun a b => a - c * b) row pivot.

Fixpoint gauss_jordan (steps k : nat) (reduced pending : Matrix) : result Matrix :=
  match steps, pending with
  | S steps', r :: rest =>
      let '(p, others) := extract_pivot k r rest in
      let d := nth k p 0 in
      if Qeq_bool d 0 then Raise LinAlgError
      else
        let pivot := (fun a => a / d) <$> p in
        gauss_jordan steps' (S k)
          ((eliminate k pivot <$> reduced) ++ [pivot])
          (eliminate k pivot <$> others)
  | _, _ => Ok reduced
  end.

Definition inv (m : Matrix) : result Matrix :=
  let n := length m in
  if forallb (fun row => (length row =? n)%nat) m then
    match gauss_jordan n 0 [] (augment m) with
    | Ok rows => Ok ((fun row : list Q => drop n row) <$> rows)
    | Raise e => Raise e
    end
  else Raise LinAlgError.

(** [np.diag] *)
Definition diag (m : Matrix) : list Q :=
  imap (fun i row => nth i row 0) m.

Definition Rsum (a : list R) : R := foldl Rplus 0%R a.

(** [np.sqrt(np.diag(cov_matrix))] *)
Definition volatilities (cov_matrix : Matrix) : list R :=
  (fun v => sqrt (Q2R v)) <$> diag cov_matrix.

(** Lines 155-157, on a covariance matrix without NaN. *)
Definition inverse_volatility_weights (cov_matrix : Matrix) : list R :=
  let vols := volatilities cov_matrix in
  let inv_vols := (fun v => 1 / v)%R <$> vols in
  (fun v => v / Rsum inv_vols)%R <$> inv_vols.

(** [risk_parity_weights]; a weight [None] is NaN. *)
Definition risk_parity_weights (returns : ReturnsMatrix) : result (list (option R)) :=
  match calculate_covariance_matrix returns with
  | None => Ok ((fun _ => None) <$> returns)
  | Some cov_matrix =>
      match inv cov_matrix with
      | Ok inv_cov => Ok (Some <$> inverse_volatility_weights cov_matrix)
      | Raise e => Raise e
      end
  end.

(** *** Sample tables *)

(** Two assets with the same returns: a singular covariance matrix with
    nonzero variances. *)
Definition twin_returns : ReturnsMatrix :=
  [ [1 # 100; 2 # 100; 3 # 100]; [1 # 100; 2 # 100; 3 # 100] ].

(** One asset, at two volatilities. *)
Definition single_calm : ReturnsMatrix := [ [0; 1] ].
Definition single_wild : ReturnsMatrix := [ [0; 2] ].

(** Two assets; the second one doubles its returns in [pair_wild]. *)
Definition pair_calm : ReturnsMatrix := [ [1; -1; 0]; [0; 1; -1] ].
Definition pair_wild : ReturnsMatrix := [ [1; -1; 0]; [0; 2; -2] ].

Definition cov_of (returns : ReturnsMatrix) : Matrix :=
  default [] (calculate_covariance_matrix returns).

(** The annualized covariance matrices of the sample tables, evaluated. *)
Definition twin_cov : Matrix := Eval vm_compute in cov_of twin_returns.
Definition single_calm_cov : Matrix := Eval vm_compute in cov_of single_calm.
Definition single_wild_cov : Matrix := Eval vm_compute in cov_of single_wild.
Definition pair_calm_cov : Matrix := Eval vm_compute in cov_of pair_calm.
Definition pair_wild_cov : Matrix := Eval vm_compute in cov_of pair_wild.

End PortfolioOptimizer.

(** ** src/risk_management/position_sizing.py *)

Module position_sizing.
Local Open Scope Q_scope.

(** Python's [max(a, b)] and [min(a, b)] and numpy's [clip]. *)
Definition py_max (a b : Q) : Q := if Qlt_bool a b then b else a.
Definition py_min (a b : Q) : Q := if Qlt_bool b a then b else a.
Definition clip (x lo hi : Q) : Q := py_min (py_max x lo) hi.

(** *** The class [KellyCriterion] *)

Module KellyCriterion.

(** The constructor argument. *)
Record t : Type := { fraction : Q }.

(** [KellyCriterion.calculate_size]; an optional argument left out is
    [None].  The arguments are Python floats, so that a price of zero
    raises [ZeroDivisionError]; but [np.clip] returns a numpy float, and
    after it the division by a price of zero raises nothing and gives no
    finite number, [None]. *)
Definition calculate_size (self : t) (capital price : Q)
    (volatility expected_return win_probability win_loss_ratio : option Q)
  : result (option Q) :=
  let win_probability := default (1 # 2) win_probability in
  let win_loss_ratio := default 1 win_loss_ratio in
  let kelly_fraction :=
    match expected_return, volatility with
    | Some expected_return, Some volatility =>
        if Qlt_bool 0 volatility then
          let kelly_fraction := expected_return / (volatility * volatility) in
          clip (kelly_fraction * fraction self) 0 (1 # 2)
        else 0
    | _, _ =>
        let q := 1 - win_probability in
        if Qlt_bool 0 win_loss_ratio then
          let kelly_fraction := (win_probability * win_loss_ratio - q) / win_loss_ratio in
          let kelly_fraction := py_max 0 kelly_fraction in
          let kelly_fraction := py_min kelly_fraction (1 # 2) in
          kelly_fraction * fraction self
        else 0
    end in
  let numpy_float :=
    match expected_return, volatility with
    | Some _, Some volatility => Qlt_bool 0 volatility
    | _, _ => false
    end in
  let position_value := capital * kelly_fraction in
  if Qeq_bool price 0 then
    if numpy_float then Ok None else Raise ZeroDivisionError
  else Ok (Some (position_value / price)).

End KellyCriterion.

End position_sizing.

(** ** src/backtesting/backtester.py, continued *)

Module BacktesterMetrics.
Import Backtester.
Local Open Scope Q_scope.

(** The dict [get_performance_metrics] returns when it is not empty: the
    entries of [get_all_metrics] and the three added ones.  [total_return]
    is [None] when it is no finite number (an initial capital of 0). *)
Record PerformanceMetrics : Type := {
  risk : risk_metrics.RiskMetrics.Metrics;
  total_return : option Q;
  num_trades : nat;
  win_rate : Q
}.

(** [get_performance_metrics(results)], on the two columns of [results]
    it reads, [results['returns']] and [results['portfolio_value']], and
    the trades a run left in the object; [Ok None] is the empty dict. *)
Definition get_performance_metrics (cfg : Config) (self_trades : list Trade)
    (returns_column : risk_metrics.Series) (portfolio_value_column : list Q)
  : result (option PerformanceMetrics) :=
  let returns := risk_metrics.dropna returns_column in
  if (length returns =? 0)%nat then Ok None
  else
    metrics ← risk_metrics.RiskMetrics.get_all_metrics
                (risk_metrics.RiskMetrics.__init__ (Some <$> returns)) 0 252;
    final_value ← match last portfolio_value_column with
                  | Some v => Ok v
                  | None => Raise IndexError
                  end;
    let total_return :=
      if Qeq_bool (initial_capital cfg) 0 then None
      else Some ((final_value / initial_capital cfg - 1) * 100) in
    mret (Some {| risk := metrics;
                  total_return := total_return;
                  num_trades := length self_trades;
                  win_rate := _calculate_win_rate self_trades |}).

(** An entry of the trade log as the entry branch of [run] writes it: the
    value is quantity times price, the commission is its share of the
    value, the quantity is an absolute value and there is no ['pnl'] key. *)
Definition booked (cfg : Config) (tr : Trade) : Prop :=
  value tr = quantity tr * price tr /\
  commission_paid tr = value tr * commission cfg /\
  0 <= quantity tr /\
  pnl tr = None.

(** What the trades of a log took out of capital: value plus commission. *)
Definition spent (ts : list Trade) : Q :=
  foldr (fun tr acc => value tr + commission_paid tr + acc) 0 ts.

(** *** Sample runs *)

(** A strategy without a signal column, on three bars. *)
Definition idle_strategy : BaseStrategy :=
  {| generate_signals := fun d => d;
     calculate_position_size := fun _ _ => 10 |}.

Definition idle_cfg : Config :=
  {| strategy := idle_strategy;
     initial_capital := 100000;
     commission := 1 # 1000;
     slippage := 5 # 10000 |}.

Definition three_bars : DataFrame :=
  [ {[ "close"%string := 100 ]}; {[ "close"%string := 120 ]}; {[ "close"%string := 90 ]} ].

(** A strategy that goes short at bar 0 with a negative quantity, as the
    strategies of the repository size their shorts. *)
Definition short_strategy : BaseStrategy :=
  {| generate_signals := fun d =>
       imap (fun i (r : gmap string Q) => <["signal"%string := nth i [-1; 0] 0]> r) d;
     calculate_position_size := fun _ _ => -10 |}.

Definition short_cfg : Config :=
  {| strategy := short_strategy;
     initial_capital := 100000;
     commission := 1 # 1000;
     slippage := 5 # 10000 |}.

(** A table without the price column. *)
Definition open_only : DataFrame :=
  [ {[ "open"%string := 100 ]}; {[ "open"%string := 101 ]} ].

End BacktesterMetrics.

(** ** src/risk_management/portfolio_optimizer.py, continued *)

Module PortfolioPerformance.
Import PortfolioOptimizer.
Local Open Scope Q_scope.

(** [a * b] on two 1-D arrays, with numpy's broadcasting of an array of
    one entry. *)
Definition multiply (a b : list Q) : result (list Q) :=
  if (length a =? length b)%nat then Ok (zip_with Qmult a b)
  else
    match a, b with
    | [x], _ => Ok ((fun y => x * y) <$> b)
    | _, [y] => Ok ((fun x => x * y) <$> a)
    | _, _ => Raise ValueError
    end.

(** [np.dot] of two 1-D arrays. *)
Definition dot (a b : list Q) : result Q :=
  if (length a =? length b)%nat then Ok (sum (zip_with Qmult a b))
  else Raise ValueError.

(** [np.dot] of a 2-D array and a 1-D array. *)
Definition matvec (m : Matrix) (v : list Q) : result (list Q) :=
  let columns := match m with
                 | [] => 0%nat
                 | row :: _ => length row
                 end in
  if forallb (fun row : list Q => (length row =? columns)%nat) m
     && (length v =? columns)%nat
  then Ok ((fun row : list Q => sum (zip_with Qmult row v)) <$> m)
  else Raise ValueError.

(** [portfolio_performance]; the volatility [None] is the NaN that
    [np.sqrt] gives on a negative variance. *)
Definition portfolio_performance (weights expected_returns : list Q) (cov_matrix : Matrix)
  : result (Q * option R) :=
  products ← multiply expected_returns weights;
  let portfolio_return := sum products in
  cov_weights ← matvec cov_matrix weights;
  portfolio_variance ← dot weights cov_weights;
  let portfolio_volatility :=
    if Qlt_bool portfolio_variance 0 then None
    else Some (sqrt (Q2R portfolio_variance)) in
  mret (portfolio_return, portfolio_volatility).

(** All of the portfolio in asset [i] of [n]. *)
Definition all_in (n i : nat) : list Q := identity_row n i.

End PortfolioPerformance.

(** ** src/risk_management/position_sizing.py, continued *)

Module position_sizing_more.
Local Open Scope R_scope.

(** *** The class [RiskParity] *)

Module RiskParity.

(** The constructor argument. *)
Record t : Type := { target_volatility : R }.

(** [RiskParity.calculate_size]; an optional argument left out is [None].
    [np.sqrt] makes every later value a numpy float, so that the division
    by a price of zero gives no finite number, [None], and raises nothing. *)
Definition calculate_size (self : t) (capital price : R)
    (volatility expected_return portfolio_volatility : option R) : option R :=
  match volatility with
  | None => Some 0
  | Some volatility =>
      if Req_dec_T volatility 0 then Some 0
      else
        let daily_vol := volatility / sqrt 252 in
        let vol_ratio :=
          match portfolio_volatility with
          | Some portfolio_volatility =>
              if Rlt_dec 0 portfolio_volatility
              then target_volatility self / portfolio_volatility
              else 1
          | None => 1
          end in
        let risk_weight := (1 / daily_vol) * vol_ratio in
        let position_value := capital * risk_weight * (1 / 10) in
        if Req_dec_T price 0 then None else Some (position_value / price)
  end.

End RiskParity.

End position_sizing_more.

(** * Proofs *)

Lemma Qlt_bool_iff (a b : Q) : Qlt_bool a b = true <-> (a < b)%Q.
Proof.
  unfold Qlt_bool. rewrite negb_true_iff.
  split; intros H.
  - apply Qnot_le_lt. intros Hle. apply Qle_bool_iff in Hle. congruence.
  - destruct (Qle_bool b a) eqn:E; [|reflexivity].
    apply Qle_bool_iff in E. exfalso. exact (Qlt_not_le _ _ H E).
Qed.

Lemma Qlt_bool_false_iff (a b : Q) : Qlt_bool a b = false <-> (b <= a)%Q.
Proof.
  unfold Qlt_bool. rewrite negb_false_iff. apply Qle_bool_iff.
Qed.

Lemma Qle_bool_false_iff (a b : Q) : Qle_bool a b = false <-> (b < a)%Q.
Proof.
  rewrite <- Qlt_bool_iff. unfold Qlt_bool.
  destruct (Qle_bool a b); simpl; split; congruence.
Qed.

Lemma Qeq_bool_false_iff (a b : Q) : Qeq_bool a b = false <-> ~ (a == b)%Q.
Proof.
  split.
  - intros H E. apply Qeq_bool_iff in E. congruence.
  - intros H. destruct (Qeq_bool a b) eqn:E; [|reflexivity].
    apply Qeq_bool_iff in E. contradiction.
Qed.

Lemma bind_Ok_inv {A B : Type} (m : result A) (f : A -> result B) (b : B) :
  m ≫= f = Ok b -> exists a, m = Ok a /\ f a = Ok b.
Proof.
  destruct m as [a|e]; simpl; [eauto | discriminate].
Qed.

Lemma bind_Ok {A B : Type} (a : A) (f : A -> result B) : Ok a ≫= f = f a.
Proof. reflexivity. Qed.

Lemma bind_ret {A B : Type} (a : A) (f : A -> result B) : mret a ≫= f = f a.
Proof. reflexivity. Qed.

Module BacktesterProofs.
Import Backtester.
Local Open Scope Q_scope.

Section Run.
Variable cfg : Config.
Variable data : DataFrame.
Variable price_column : string.

Local Abbreviation trade_step := (trade_step cfg data price_column).
Local Abbreviation step := (step cfg data price_column).
Local Abbreviation run_prefix := (run_prefix cfg data price_column).
Local Abbreviation init_results := (init_results cfg data).

(** A trade leaves the state alone or opens a position: the exit branch
    sits under the guard [signal != 0] and asks for [signal == 0]. *)
Lemma trade_step_cases i p s st st' :
  trade_step i p s st = Ok st' ->
  st' = st \/
  (Qeq_bool (current_position st) 0 = true /\ Qeq_bool s 0 = false /\
   current_position st' = s /\ results st' = results st /\
   equity_curve st' = equity_curve st /\
   exists q tr, positions st' = <[price_column := q]> (positions st) /\
                trades st' = trades st ++ [tr] /\
                side tr <> exit /\ pnl tr = None).
Proof.
  unfold Backtester.trade_step.
  destruct (Qeq_bool s 0) eqn:Es; simpl; [intros [= <-]; by left|].
  destruct (Qeq_bool s (current_position st)) eqn:Ec; simpl; [intros [= <-]; by left|].
  destruct (Qeq_bool (current_position st) 0) eqn:E0; [|intros [= <-]; by left].
  match goal with |- context [Qle_bool ?a ?b] => destruct (Qle_bool a b) end;
    [|intros [= <-]; by left].
  intros [= <-]. right. simpl. repeat split; try done.
  eexists _, _. repeat split; simpl; try done.
  by destruct (Qlt_bool 0 s).
Qed.

Lemma trade_step_holding i p s st :
  ~ current_position st == 0 -> trade_step i p s st = Ok st.
Proof.
  intros H. apply Qeq_bool_false_iff in H.
  unfold Backtester.trade_step. rewrite H.
  destruct (Qeq_bool s 0); simpl; [done|].
  by destruct (Qeq_bool s (current_position st)).
Qed.

Lemma step_inv i st st' :
  step i st = Ok st' ->
  exists p s st1,
    iloc (results st) i price_column = Ok p /\
    iloc (results st) i "signal" = Ok s /\
    trade_step i p s st = Ok st1 /\
    st' = record_bar price_column i p st1.
Proof.
  unfold Backtester.step. intros H.
  apply bind_Ok_inv in H as (p & Hp & H).
  apply bind_Ok_inv in H as (s & Hs & H).
  apply bind_Ok_inv in H as (st1 & Ht & H).
  injection H as <-. eauto 8.
Qed.

Lemma step_holding i st st' :
  ~ current_position st == 0 -> step i st = Ok st' ->
  capital st' = capital st /\ positions st' = positions st /\
  trades st' = trades st /\ current_position st' = current_position st.
Proof.
  intros Hheld H. apply step_inv in H as (p & s & st1 & _ & _ & Ht & ->).
  rewrite trade_step_holding in Ht by done. by injection Ht as <-.
Qed.

Lemma run_prefix_S k st' :
  run_prefix (S k) = Ok st' ->
  exists st, run_prefix k = Ok st /\ step k st = Ok st'.
Proof. simpl. apply bind_Ok_inv. Qed.

Lemma step_trade_log_inv i st st' :
  trade_log_inv st -> step i st = Ok st' -> trade_log_inv st'.
Proof.
  intros Hinv H. apply step_inv in H as (p & s & st1 & _ & _ & Ht & ->).
  unfold trade_log_inv; simpl.
  apply trade_step_cases in Ht as [->|(E0 & Es & Hcp & _ & _ & q & tr & Hpos & Htr & Hside & Hpnl)];
    [done|].
  right. destruct Hinv as [(_ & Hnil & _)|(E0' & _)]; [|congruence].
  rewrite Hcp, Htr, Hnil. eauto.
Qed.

Lemma run_prefix_trade_log_inv k st :
  run_prefix k = Ok st -> trade_log_inv st.
Proof.
  revert st. induction k as [|k IH]; intros st H.
  - injection H as <-. left. done.
  - apply run_prefix_S in H as (st0 & H0 & Hs). eauto using step_trade_log_inv.
Qed.

Lemma win_rate_short ts : (length ts <= 1)%nat -> _calculate_win_rate ts = 0.
Proof.
  intros H. unfold _calculate_win_rate.
  destruct (Nat.ltb_spec (length ts) 2); [done|lia].
Qed.

(** The table keeps its length, the equity curve has one entry per
    bar, and the rows of later bars are as initialised. *)
Lemma set_cell_length df i c v : length (set_cell df i c v) = length df.
Proof. unfold set_cell. apply length_alter. Qed.

Lemma set_cell_lookup_ne df i j c v :
  i <> j -> set_cell df i c v !! j = df !! j.
Proof. intros H. unfold set_cell. by apply list_lookup_alter_ne. Qed.

Lemma set_cell_lookup_eq df i c v :
  set_cell df i c v !! i = (fun r : gmap string Q => <[c := v]> r) <$> df !! i.
Proof. unfold set_cell. apply list_lookup_alter_eq. Qed.

Lemma step_frame i st st' :
  step i st = Ok st' ->
  length (results st') = length (results st) /\
  length (equity_curve st') = S (length (equity_curve st)) /\
  (forall j, j <> i -> results st' !! j = results st !! j) /\
  (forall j, (j < length (equity_curve st))%nat ->
             equity_curve st' !! j = equity_curve st !! j).
Proof.
  intros H. apply step_inv in H as (p & s & st1 & _ & _ & Ht & ->).
  assert (results st1 = results st /\ equity_curve st1 = equity_curve st) as [Hr He].
  { apply trade_step_cases in Ht as [->|(_ & _ & _ & ? & ? & _)]; done. }
  simpl. rewrite Hr, He. repeat split.
  - by rewrite !set_cell_length.
  - rewrite length_app. simpl. lia.
  - intros j Hj. by rewrite !set_cell_lookup_ne.
  - intros j Hj. by apply lookup_app_l.
Qed.

Lemma run_prefix_frame k st :
  run_prefix k = Ok st ->
  length (results st) = length init_results /\
  length (equity_curve st) = k /\
  (forall j, (k <= j)%nat -> results st !! j = init_results !! j).
Proof.
  revert st. induction k as [|k IH]; intros st H.
  - by injection H as <-.
  - apply run_prefix_S in H as (st0 & H0 & Hs).
    destruct (IH _ H0) as (Hlen & Heq & Hrows).
    destruct (step_frame _ _ _ Hs) as (Hlen' & Heq' & Hrows' & _).
    repeat split; [congruence | lia |].
    intros j Hj. rewrite Hrows' by lia. apply Hrows. lia.
Qed.

Lemma init_results_length : length init_results = length data.
Proof.
  unfold Backtester.init_results, set_column_scalar.
  by rewrite !length_fmap, length_imap.
Qed.

Lemma init_results_price t :
  price_column <> "signal"%string -> price_column <> "position"%string ->
  price_column <> "capital"%string -> price_column <> "portfolio_value"%string ->
  iloc init_results t price_column = iloc data t price_column.
Proof.
  intros H1 H2 H3 H4. unfold iloc, Backtester.init_results, set_column_scalar.
  rewrite !list_lookup_fmap, list_lookup_imap.
  destruct (data !! t) as [r|]; simpl; [|done].
  by rewrite !lookup_insert_ne.
Qed.

(** Row [t] of the table, once bar [t] has been processed, holds what
    the state after bar [t] dictates. *)
Lemma recorded_rows k st :
  run_prefix k = Ok st ->
  forall t, (t < k)%nat ->
  exists st_t p r,
    run_prefix (S t) = Ok st_t /\
    iloc init_results t price_column = Ok p /\
    results st !! t = Some r /\
    r !! "capital"%string = Some (capital st_t) /\
    r !! "portfolio_value"%string = Some (mark_to_market price_column st_t p) /\
    equity_curve st !! t = Some (mark_to_market price_column st_t p).
Proof.
  revert st. induction k as [|k IH]; intros st H t Ht; [lia|].
  pose proof H as Hfull.
  apply run_prefix_S in H as (st0 & H0 & Hs).
  destruct (run_prefix_frame _ _ H0) as (Hlen & Heq & Hrows).
  destruct (step_frame _ _ _ Hs) as (_ & _ & Hrows' & Heq').
  destruct (decide (t = k)) as [->|Hne].
  - apply step_inv in Hs as (p & s & st1 & Hp & _ & Ht1 & ->).
    assert (results st1 = results st0 /\ equity_curve st1 = equity_curve st0) as [Hr He].
    { apply trade_step_cases in Ht1 as [->|(_ & _ & _ & ? & ? & _)]; done. }
    unfold iloc in Hp. rewrite Hrows in Hp by lia.
    destruct (init_results !! k) as [r0|] eqn:Hr0; [|done].
    destruct (r0 !! price_column) as [p0|] eqn:Hp0; [|done].
    injection Hp as ->.
    eexists _, p, _. split; [exact Hfull|].
    split; [unfold iloc; by rewrite Hr0, Hp0|].
    simpl. rewrite Hr, He, !set_cell_lookup_eq, Hrows, Hr0 by lia. simpl.
    split; [done|]. split.
    { rewrite lookup_insert_ne by done. by rewrite lookup_insert_eq. }
    split; [by rewrite lookup_insert_eq|].
    rewrite lookup_app_r by lia. by rewrite Heq, Nat.sub_diag.
  - destruct (IH _ H0 t) as (st_t & p & r & ? & ? & Hr & ? & ? & He); [lia|].
    exists st_t, p, r. repeat split; try done.
    + by rewrite Hrows'.
    + rewrite Heq' by lia. done.
Qed.

Lemma mark_to_market_held st p :
  mark_to_market price_column st p == capital st + held_quantity price_column st * p.
Proof.
  unfold mark_to_market, held_quantity. destruct (positions st !! price_column); simpl; ring.
Qed.

Lemma mark_to_market_flat k st p :
  run_prefix k = Ok st -> current_position st == 0 ->
  mark_to_market price_column st p = capital st.
Proof.
  intros H Hflat. apply run_prefix_trade_log_inv in H as [(_ & _ & Hpos)|(E & _)].
  - unfold mark_to_market. by rewrite Hpos, lookup_empty.
  - apply Qeq_bool_false_iff in E. contradiction.
Qed.

Lemma run_final out :
  Backtester.run cfg data price_column = Ok out ->
  run_prefix (length data) = Ok (final out) /\
  table out = set_column (results (final out)) "equity_curve" (equity_curve (final out)).
Proof.
  unfold run. intros H. apply bind_Ok_inv in H as (st & Hst & H).
  injection H as <-. simpl. by rewrite <- init_results_length.
Qed.

End Run.

(** C4: an opening attempt that capital cannot cover (trade value plus
    commission strictly above capital) raises nothing and leaves capital,
    the positions mapping, the trade log and the current-position flag as
    they were. *)
Theorem insufficient_capital_is_noop
    (cfg : Config) (data : DataFrame) (price_column : string)
    (i : nat) (st : State) (current_price signal : Q) :
  iloc (results st) i price_column = Ok current_price ->
  iloc (results st) i "signal" = Ok signal ->
  ~ signal == 0 ->
  current_position st == 0 ->
  (let execution_price :=
     calculate_execution_price cfg current_price (if Qlt_bool 0 signal then buy else sell) in
   let quantity :=
     calculate_position_size (strategy cfg)
       {| sd_signal := signal; sd_price := execution_price |} (take (S i) data) in
   let trade_value := Qabs quantity * execution_price in
   capital st < trade_value + calculate_commission_cost cfg trade_value) ->
  exists st',
    step cfg data price_column i st = Ok st' /\
    capital st' = capital st /\
    positions st' = positions st /\
    trades st' = trades st /\
    current_position st' = current_position st.
Proof.
  intros Hp Hs Hsig Hflat Hcap.
  assert (trade_step cfg data price_column i current_price signal st = Ok st) as Ht.
  { unfold trade_step.
    apply Qeq_bool_false_iff in Hsig. rewrite Hsig. simpl.
    apply Qeq_bool_iff in Hflat. rewrite Hflat.
    apply Qle_bool_false_iff in Hcap. rewrite Hcap.
    by destruct (Qeq_bool signal (current_position st)). }
  eexists. unfold step. rewrite Hp, Hs. simpl. rewrite Ht. simpl.
  split; [reflexivity|]. done.
Qed.

Lemma insufficient_capital_is_noop_witness :
  exists st',
    step poor_cfg demo_data "close" 0 (init_state poor_cfg demo_data) = Ok st' /\
    capital st' = 100 /\
    positions st' = ∅ /\
    trades st' = [] /\
    current_position st' = 0.
Proof.
  apply (insufficient_capital_is_noop poor_cfg demo_data "close" 0
           (init_state poor_cfg demo_data) 100 1).
  - vm_compute. reflexivity.
  - vm_compute. reflexivity.
  - unfold Qeq. simpl. lia.
  - reflexivity.
  - vm_compute. reflexivity.
Defined.

(** C5: in the table a run returns, the portfolio value recorded at bar
    [t] is the capital recorded there plus the held quantity times the
    price the loop read at that bar (the capital alone when flat), and
    the equity-curve entry of the bar is that portfolio value.  The price
    read is the one of the input table unless [price_column] names one of
    the four columns the run adds. *)
Theorem portfolio_value_invariant
    (cfg : Config) (data : DataFrame) (price_column : string)
    (out : Output) (t : nat) :
  run cfg data price_column = Ok out ->
  (t < length data)%nat ->
  exists st_t bar_price row cap pv,
    run_prefix cfg data price_column (S t) = Ok st_t /\
    iloc (init_results cfg data) t price_column = Ok bar_price /\
    table out !! t = Some row /\
    row !! "capital"%string = Some cap /\
    cap = capital st_t /\
    row !! "portfolio_value"%string = Some pv /\
    row !! "equity_curve"%string = Some pv /\
    pv == cap + held_quantity price_column st_t * bar_price /\
    (current_position st_t == 0 -> pv = cap) /\
    (price_column <> "signal"%string -> price_column <> "position"%string ->
     price_column <> "capital"%string -> price_column <> "portfolio_value"%string ->
     iloc data t price_column = Ok bar_price).
Proof.
  intros Hrun Ht.
  apply run_final in Hrun as (Hfinal & Htable).
  destruct (recorded_rows _ _ _ _ _ Hfinal t Ht)
    as (st_t & p & r & Hst & Hp & Hr & Hcap & Hpv & Heq).
  exists st_t, p, (<["equity_curve"%string := mark_to_market price_column st_t p]> r),
    (capital st_t), (mark_to_market price_column st_t p).
  split; [done|]. split; [done|]. split.
  { rewrite Htable. unfold set_column. rewrite lookup_zip_with, Hr, Heq. done. }
  split; [by rewrite lookup_insert_ne|]. split; [done|].
  split; [by rewrite lookup_insert_ne|].
  split; [by rewrite lookup_insert_eq|].
  split; [apply mark_to_market_held|].
  split; [intros Hflat; eapply mark_to_market_flat; eauto|].
  intros H1 H2 H3 H4. by rewrite <- (init_results_price cfg).
Qed.

Lemma portfolio_value_invariant_witness :
  exists out st_t bar_price row cap pv,
    run demo_cfg demo_data "close" = Ok out /\
    run_prefix demo_cfg demo_data "close" 2 = Ok st_t /\
    iloc (init_results demo_cfg demo_data) 1 "close" = Ok bar_price /\
    table out !! 1%nat = Some row /\
    row !! "capital"%string = Some cap /\
    row !! "portfolio_value"%string = Some pv /\
    row !! "equity_curve"%string = Some pv /\
    pv == cap + held_quantity "close" st_t * bar_price.
Proof.
  destruct (run demo_cfg demo_data "close") as [out|e] eqn:Hrun.
  - destruct (portfolio_value_invariant demo_cfg demo_data "close" out 1 Hrun)
      as (st_t & p & row & cap & pv & H1 & H2 & H3 & H4 & H5 & H6 & H7 & H8 & H9 & H10).
    + simpl. lia.
    + exists out, st_t, p, row, cap, pv. repeat split; assumption.
  - vm_compute in Hrun. discriminate.
Defined.

(** C9: once a position is open (the flag is nonzero after [k] bars),
    every later bar leaves capital, the positions mapping and the trade
    log as they are, whatever its signal (0 or a reversal); so the trade
    log holds at most one trade at any point of a run and at its end, no
    trade has side [exit] or a pnl field, and [_calculate_win_rate] is 0. *)
Theorem once_open_never_trades
    (cfg : Config) (data : DataFrame) (price_column : string)
    (k k' : nat) (st st' : State) :
  (k <= k')%nat ->
  run_prefix cfg data price_column k = Ok st ->
  run_prefix cfg data price_column k' = Ok st' ->
  (~ current_position st == 0 ->
   capital st' = capital st /\ positions st' = positions st /\ trades st' = trades st) /\
  (length (trades st') <= 1)%nat /\
  Forall (fun tr => side tr <> exit /\ pnl tr = None) (trades st') /\
  _calculate_win_rate (trades st') = 0 /\
  (forall out, run cfg data price_column = Ok out ->
     (length (trades (final out)) <= 1)%nat /\
     Forall (fun tr => side tr <> exit /\ pnl tr = None) (trades (final out)) /\
     _calculate_win_rate (trades (final out)) = 0).
Proof.
  intros Hle Hk Hk'.
  assert (forall k0 st0, run_prefix cfg data price_column k0 = Ok st0 ->
            (length (trades st0) <= 1)%nat /\
            Forall (fun tr => side tr <> exit /\ pnl tr = None) (trades st0)) as Hlog.
  { intros k0 st0 H0.
    destruct (run_prefix_trade_log_inv _ _ _ _ _ H0) as [(_ & -> & _)|(_ & tr & -> & ? & ?)].
    - split; [simpl; lia | constructor].
    - split; [simpl; lia | by repeat constructor]. }
  assert (forall out, run cfg data price_column = Ok out ->
     (length (trades (final out)) <= 1)%nat /\
     Forall (fun tr => side tr <> exit /\ pnl tr = None) (trades (final out)) /\
     _calculate_win_rate (trades (final out)) = 0) as Hrun.
  { intros out Hout. apply run_final in Hout as [Hout _].
    destruct (Hlog _ _ Hout) as [? ?]. by auto using win_rate_short. }
  cut ((~ current_position st == 0 ->
        capital st' = capital st /\ positions st' = positions st /\ trades st' = trades st) /\
       (length (trades st') <= 1)%nat /\
       Forall (fun tr => side tr <> exit /\ pnl tr = None) (trades st') /\
       _calculate_win_rate (trades st') = 0).
  { intros (? & ? & ? & ?). auto 6. }
  clear Hlog Hrun.
  assert ((length (trades st') <= 1)%nat /\
          Forall (fun tr => side tr <> exit /\ pnl tr = None) (trades st')) as [Hlen Hall].
  { destruct (run_prefix_trade_log_inv _ _ _ _ _ Hk') as [(_ & -> & _)|(_ & tr & -> & ? & ?)].
    - split; [simpl; lia | constructor].
    - split; [simpl; lia | by repeat constructor]. }
  split; [|split; [done|split; [done|by apply win_rate_short]]].
  intros Hheld.
  enough (capital st' = capital st /\ positions st' = positions st /\
          trades st' = trades st /\ current_position st' = current_position st)
    as (? & ? & ? & _) by done.
  revert st' Hk' Hlen Hall. induction Hle as [|k' Hle IH]; intros st' Hk' _ _.
  - rewrite Hk in Hk'. by injection Hk' as <-.
  - apply run_prefix_S in Hk' as (st0 & H0 & Hs).
    assert (capital st0 = capital st /\ positions st0 = positions st /\
            trades st0 = trades st /\ current_position st0 = current_position st)
      as (Hc & Hp & Ht & Hcp).
    { apply IH; [done| |].
      - destruct (run_prefix_trade_log_inv _ _ _ _ _ H0) as [(_ & -> & _)|(_ & tr & -> & _)];
          simpl; lia.
      - destruct (run_prefix_trade_log_inv _ _ _ _ _ H0) as [(_ & -> & _)|(_ & tr & -> & ? & ?)];
          by repeat constructor. }
    destruct (step_holding _ _ _ _ _ _ ltac:(by rewrite Hcp) Hs) as (? & ? & ? & ?).
    repeat split; congruence.
Qed.

Lemma once_open_never_trades_witness :
  run_prefix demo_cfg demo_data "close" 1 = Ok demo_after_bar0 /\
  run_prefix demo_cfg demo_data "close" 2 = Ok demo_after_bar1 /\
  capital demo_after_bar1 = capital demo_after_bar0 /\
  positions demo_after_bar1 = positions demo_after_bar0 /\
  trades demo_after_bar1 = trades demo_after_bar0 /\
  _calculate_win_rate (trades demo_after_bar1) = 0.
Proof.
  assert (run_prefix demo_cfg demo_data "close" 1 = Ok demo_after_bar0) as H1
    by (vm_compute; reflexivity).
  assert (run_prefix demo_cfg demo_data "close" 2 = Ok demo_after_bar1) as H2
    by (vm_compute; reflexivity).
  destruct (once_open_never_trades demo_cfg demo_data "close" 1 2
              demo_after_bar0 demo_after_bar1)
    as (Hsame & _ & _ & Hwin & _); [lia | exact H1 | exact H2 |].
  destruct Hsame as (? & ? & ?).
  { unfold Qeq. simpl. lia. }
  repeat split; assumption.
Defined.

(** C1 (the code does otherwise): a long position is opened at bar 0 and
    the signal is 0 at bar 1, yet after bar 1 the position entry is still
    there, capital has not been credited, the position flag is still 1
    and the trade log holds the opening trade only. *)
Theorem flat_signal_does_not_close :
  run_prefix demo_cfg demo_data "close" 1 = Ok demo_after_bar0 /\
  positions demo_after_bar0 !! "close"%string = Some 10 /\
  iloc (results demo_after_bar0) 1 "signal" = Ok 0 /\
  step demo_cfg demo_data "close" 1 demo_after_bar0 = Ok demo_after_bar1 /\
  positions demo_after_bar1 !! "close"%string = Some 10 /\
  capital demo_after_bar1 = capital demo_after_bar0 /\
  current_position demo_after_bar1 = 1 /\
  trades demo_after_bar1 = trades demo_after_bar0 /\
  Forall (fun tr => side tr = buy) (trades demo_after_bar1).
Proof.
  split; [vm_compute; reflexivity|].
  split; [reflexivity|].
  split; [reflexivity|].
  split; [vm_compute; reflexivity|].
  split; [reflexivity|].
  split; [reflexivity|].
  split; [reflexivity|].
  split; [reflexivity|].
  repeat constructor.
Qed.

End BacktesterProofs.

Module RiskMetricsProofs.
Import risk_metrics.
Local Open Scope Q_scope.

Lemma foldl_Qplus_acc (a : Q) (l : list Q) :
  foldl Qplus a l == a + foldl Qplus 0 l.
Proof.
  revert a. induction l as [|x l IH]; intros a; simpl.
  - ring.
  - rewrite (IH (a + x)), (IH (0 + x)). ring.
Qed.

Lemma sum_cons (x : Q) (l : list Q) : sum (x :: l) == x + sum l.
Proof. unfold sum. simpl. rewrite foldl_Qplus_acc. ring. Qed.

Lemma count_cons (x : Q) (l : list Q) : count (x :: l) == 1 + count l.
Proof.
  unfold count. simpl length. rewrite Nat2Z.inj_succ, <- Z.add_1_l, inject_Z_plus.
  reflexivity.
Qed.

Lemma count_nonneg (l : list Q) : 0 <= count l.
Proof.
  unfold count. change 0 with (inject_Z 0). rewrite <- Zle_Qle. lia.
Qed.

Lemma count_pos (x : Q) (l : list Q) : 0 < count (x :: l).
Proof. rewrite count_cons. pose proof (count_nonneg l). lra. Qed.

(** The sum of values that are all at most [t]. *)
Lemma sum_le_bound (t : Q) (l : list Q) :
  Forall (fun x => x <= t) l -> sum l <= t * count l.
Proof.
  induction 1 as [|x l Hx Hl IH].
  - unfold sum, count. simpl. change (inject_Z (Z.of_nat 0)) with 0. lra.
  - rewrite sum_cons, count_cons. lra.
Qed.

Lemma mean_le_bound (t : Q) (l : list Q) :
  l <> [] -> Forall (fun x => x <= t) l -> sum l / count l <= t.
Proof.
  intros Hne Hall. destruct l as [|x l]; [done|].
  apply Qle_shift_div_r; [apply count_pos|].
  by apply sum_le_bound.
Qed.

Lemma dropna_replicate_None (n : nat) : dropna (replicate n None) = [].
Proof. induction n as [|n IH]; [done|]. simpl. exact IH. Qed.

Lemma dropna_Some (l : list Q) : dropna (Some <$> l) = l.
Proof. induction l as [|x l IH]; [done|]. unfold dropna in *. simpl. by f_equal. Qed.

Lemma percentile_in_range (a : list Q) (c : Q) :
  0 < c -> c < 1 -> exists p, percentile a ((1 - c) * 100) = Ok p.
Proof.
  intros H0 H1. unfold percentile.
  assert ((1 - c) * 100 / 100 == 1 - c) as E by (field).
  assert (Qle_bool 0 ((1 - c) * 100 / 100) = true) as ->.
  { apply Qle_bool_iff. rewrite E. lra. }
  assert (Qle_bool ((1 - c) * 100 / 100) 1 = true) as ->.
  { apply Qle_bool_iff. rewrite E. lra. }
  simpl. eauto.
Qed.

(** C7: for a confidence level strictly between 0 and 1, [calculate_var]
    and [calculate_cvar] return (neither raises), both values are
    nonnegative, and the CVaR is at least the VaR. *)
Theorem cvar_ge_var_ge_zero (s : Series) (c : Q) :
  0 < c -> c < 1 ->
  exists v cv,
    calculate_var s c = Ok v /\
    calculate_cvar s c = Ok cv /\
    0 <= v /\ 0 <= cv /\ v <= cv.
Proof.
  intros H0 H1. unfold calculate_var, calculate_cvar, calculate_var_values.
  destruct (dropna s) as [|x l] eqn:Hl.
  { exists 0, 0. simpl. repeat split; lra. }
  destruct (Nat.eqb_spec (length (x :: l)) 0) as [E|_]; [done|].
  destruct (percentile_in_range (x :: l) c H0 H1) as [p ->].
  rewrite bind_Ok, bind_ret.
  set (v := Qabs p).
  assert (0 <= v) as Hv by apply Qabs_nonneg.
  set (tail_losses := List.filter (fun r => Qle_bool r (- v)) (x :: l)).
  destruct (length tail_losses =? 0)%nat eqn:Hlen.
  { exists v, v. repeat split; try done; lra. }
  exists v, (Qabs (sum tail_losses / count tail_losses)).
  assert (sum tail_losses / count tail_losses <= - v) as Hmean.
  { apply mean_le_bound.
    - intros E. rewrite E in Hlen. done.
    - apply List.Forall_forall. intros r Hr.
      apply List.filter_In in Hr as [_ Hr]. by apply Qle_bool_iff in Hr. }
  split; [done|]. split; [done|].
  rewrite Qabs_neg by lra.
  repeat split; lra.
Qed.

Lemma cvar_ge_var_ge_zero_witness :
  exists v cv,
    calculate_var [Some (-3); None; Some 1; Some 4; Some (-2)] (95 # 100) = Ok v /\
    calculate_cvar [Some (-3); None; Some 1; Some 4; Some (-2)] (95 # 100) = Ok cv /\
    0 <= v /\ 0 <= cv /\ v <= cv.
Proof.
  apply (cvar_ge_var_ge_zero [Some (-3); None; Some 1; Some 4; Some (-2)] (95 # 100)).
  - reflexivity.
  - reflexivity.
Defined.

(** C3 (the code does otherwise): on an empty Series, and on one that
    holds NaN only, [get_all_metrics] raises nothing and six entries are
    0.0, but [volatility] and [annual_return] are NaN. *)
Theorem empty_series_metrics (n : nat) (risk_free_rate : Q) (periods_per_year : positive) :
  RiskMetrics.get_all_metrics (RiskMetrics.__init__ (replicate n None)) risk_free_rate periods_per_year =
  Ok {| RiskMetrics.sharpe_ratio := Some 0%R;
        RiskMetrics.sortino_ratio := Some 0%R;
        RiskMetrics.max_drawdown := Some 0;
        RiskMetrics.calmar_ratio := Some 0;
        RiskMetrics.var_95 := 0;
        RiskMetrics.cvar_95 := 0;
        RiskMetrics.volatility := None;
        RiskMetrics.annual_return := None |}.
Proof.
  unfold RiskMetrics.__init__. rewrite dropna_replicate_None. reflexivity.
Qed.

Lemma cumprod_from_pos (acc : Q) (l : list Q) :
  0 < acc -> Forall (fun x => 0 < x) l -> Forall (fun x => 0 < x) (cumprod_from acc l).
Proof.
  intros Hacc Hl. revert acc Hacc.
  induction Hl as [|x l Hx Hl IH]; intros acc Hacc; simpl; constructor.
  - nra.
  - apply IH. nra.
Qed.

Lemma expanding_max_from_bounds (m : Q) (cs : list Q) :
  0 < m -> Forall (fun c => 0 < c) cs ->
  Forall2 (fun c mx => 0 < c /\ c <= mx) cs (expanding_max_from m cs).
Proof.
  intros Hm Hcs. revert m Hm.
  induction Hcs as [|c cs Hc Hcs IH]; intros m Hm; simpl; constructor.
  - split; [done|]. apply Q.le_max_r.
  - apply IH. pose proof (Q.le_max_r m c). lra.
Qed.

Lemma drawdown_entries_range (cs ms : list Q) :
  Forall2 (fun c m => 0 < c /\ c <= m) cs ms ->
  Forall (fun e => exists v, e = Some v /\ (-1 < v /\ v <= 0))
         (zip_with drawdown_entry cs ms).
Proof.
  induction 1 as [|c m cs ms [Hc Hcm] _ IH]; simpl; constructor; [|done].
  unfold drawdown_entry.
  assert (Qeq_bool m 0 = false) as -> by (apply Qeq_bool_false_iff; lra).
  eexists. split; [done|]. split.
  - apply Qlt_shift_div_l; lra.
  - apply Qle_shift_div_r; lra.
Qed.

(** With returns that are all nonnegative the cumulative product never
    falls, so the running maximum is the cumulative product itself. *)
Lemma nondecreasing_running_max (l : list Q) (acc m : Q) :
  0 < acc -> m == acc -> Forall (fun x => 1 <= x) l ->
  Forall2 (fun c mx => 0 < c /\ mx == c)
          (cumprod_from acc l) (expanding_max_from m (cumprod_from acc l)).
Proof.
  intros Hacc Hm Hl. revert acc m Hacc Hm.
  induction Hl as [|x l Hx Hl IH]; intros acc m Hacc Hm; simpl; constructor.
  - split; [nra|]. apply Q.max_r. rewrite Hm. nra.
  - apply IH; [nra|]. apply Q.max_r. rewrite Hm. nra.
Qed.

Lemma drawdown_entries_zero (cs ms : list Q) :
  Forall2 (fun c m => 0 < c /\ m == c) cs ms ->
  Forall (fun e => exists v, e = Some v /\ v == 0) (zip_with drawdown_entry cs ms).
Proof.
  induction 1 as [|c m cs ms [Hc Hcm] _ IH]; simpl; constructor; [|done].
  unfold drawdown_entry.
  assert (Qeq_bool m 0 = false) as -> by (apply Qeq_bool_false_iff; lra).
  eexists. split; [done|]. rewrite Hcm. field. lra.
Qed.

Lemma foldl_Qmin_closed (P : Q -> Prop) (x : Q) (l : list Q) :
  P x -> Forall P l -> P (foldl Qmin x l).
Proof.
  intros Hx Hl. revert x Hx.
  induction Hl as [|y l Hy Hl IH]; intros x Hx; simpl; [done|].
  apply IH. unfold Qmin, GenericMinMax.gmin. by destruct (x ?= y).
Qed.

Lemma series_min_closed (P : Q -> Prop) (s : Series) :
  s <> [] -> Forall (fun e => exists v, e = Some v /\ P v) s ->
  exists v, series_min s = Some v /\ P v.
Proof.
  intros Hne Hs.
  assert (exists l, s = Some <$> l /\ Forall P l) as (l & -> & Hl).
  { clear Hne. induction Hs as [|e s (v & -> & Hv) _ (l & -> & Hl)].
    - by exists [].
    - exists (v :: l). split; [done|]. by constructor. }
  unfold series_min. rewrite dropna_Some.
  destruct Hl as [|x l Hx Hl]; [done|].
  eexists. split; [done|]. by apply foldl_Qmin_closed.
Qed.

(** C6: on a return series whose values all exceed -1 the maximum
    drawdown is a number between 0 and 1, and it is 0 when no return is
    negative. *)
Theorem max_drawdown_bounds (s : Series) :
  Forall (fun r => -1 < r) (dropna s) ->
  exists d,
    RiskMetrics.calculate_max_drawdown (RiskMetrics.__init__ s) = Some d /\
    0 <= d /\ d <= 1 /\
    (Forall (fun r => 0 <= r) (dropna s) -> d == 0).
Proof.
  intros Hgt. unfold RiskMetrics.calculate_max_drawdown, RiskMetrics.__init__. simpl RiskMetrics.returns.
  destruct (dropna s) as [|x l]; simpl length.
  { exists 0. repeat split; try done; lra. }
  destruct (Nat.eqb_spec (S (length l)) 0) as [E|_]; [done|].
  rewrite fmap_cons. unfold cumprod. fold cumprod_from.
  unfold expanding_max. fold expanding_max_from.
  set (gross := (fun r => 1 + r) <$> l).
  assert (0 < 1 + x) as Hx by (inversion Hgt; subst; lra).
  assert (Forall (fun g => 0 < g) gross) as Hgross.
  { apply Forall_fmap. inversion Hgt as [|? ? _ Hl]; subst.
    eapply Forall_impl; [exact Hl|]. simpl. intros; lra. }
  set (cumulative := cumprod_from (1 + x) gross).
  assert (Forall (fun c => 0 < c) cumulative) as Hcum by by apply cumprod_from_pos.
  set (drawdown := zip_with drawdown_entry ((1 + x) :: cumulative)
                     ((1 + x) :: expanding_max_from (1 + x) cumulative)).
  assert (drawdown <> []) as Hne by done.
  destruct (series_min_closed (fun v => -1 < v /\ v <= 0) drawdown Hne) as (v & Hv & Hlo & Hhi).
  { apply drawdown_entries_range. constructor; [split; lra|].
    by apply expanding_max_from_bounds. }
  exists (Qabs v). rewrite Hv. split; [done|].
  split; [apply Qabs_nonneg|].
  split; [rewrite Qabs_neg by done; lra|].
  intros Hnonneg.
  destruct (series_min_closed (fun v => v == 0) drawdown Hne) as (v' & Hv' & Hzero).
  { apply drawdown_entries_zero. constructor; [split; [done|reflexivity]|].
    apply nondecreasing_running_max; [done|reflexivity|].
    apply Forall_fmap. inversion Hnonneg as [|? ? _ Hl]; subst.
    eapply Forall_impl; [exact Hl|]. simpl. intros; lra. }
  rewrite Hv in Hv'. injection Hv' as <-. rewrite Hzero. reflexivity.
Qed.

Lemma max_drawdown_bounds_witness :
  exists d,
    RiskMetrics.calculate_max_drawdown (RiskMetrics.__init__ [Some (1 # 10); Some (-1 # 2); None; Some (2 # 10)]) = Some d /\
    0 <= d /\ d <= 1.
Proof.
  destruct (max_drawdown_bounds [Some (1 # 10); Some (-1 # 2); None; Some (2 # 10)])
    as (d & Hd & H0 & H1 & _).
  - repeat constructor.
  - exists d. repeat split; assumption.
Defined.

End RiskMetricsProofs.

Module PositionSizingProofs.
Import position_sizing.
Import KellyCriterion.
Local Open Scope Q_scope.

Lemma py_max_bounds (a b : Q) : a <= py_max a b /\ b <= py_max a b.
Proof.
  unfold py_max. destruct (Qlt_bool a b) eqn:E.
  - apply Qlt_bool_iff in E. lra.
  - apply Qlt_bool_false_iff in E. lra.
Qed.

Lemma py_min_bounds (a b : Q) : py_min a b <= a /\ py_min a b <= b.
Proof.
  unfold py_min. destruct (Qlt_bool b a) eqn:E.
  - apply Qlt_bool_iff in E. lra.
  - apply Qlt_bool_false_iff in E. lra.
Qed.

Lemma py_min_lower (a b c : Q) : c <= a -> c <= b -> c <= py_min a b.
Proof. intros Ha Hb. unfold py_min. by destruct (Qlt_bool b a). Qed.

(** The classic formula: a fraction clamped to [0, 1/2], then scaled. *)
Lemma scaled_clamp_nonneg (k f : Q) : 0 <= f -> 0 <= py_min (py_max 0 k) (1 # 2) * f.
Proof.
  intros Hf. apply Qmult_le_0_compat; [|done].
  apply py_min_lower; [apply py_max_bounds | lra].
Qed.





(** C10 (the code does otherwise): with a negative configured fraction
    the classic formula (no [expected_return], no [volatility]), which
    scales by the fraction after its clamp to [0, 1/2], returns a
    negative size for a nonnegative capital and a positive price. *)
Lemma kelly_negative_fraction :
  0 <= 100 /\ 0 < 1 /\
  exists q,
    calculate_size {| fraction := -1 |} 100 1 None None (Some 1) (Some 1) = Ok (Some q) /\
    q < 0.
Proof.
  split; [unfold Qle; simpl; lia|]. split; [reflexivity|].
  eexists. split; [vm_compute; reflexivity|]. reflexivity.
Qed.

End PositionSizingProofs.

Module PortfolioOptimizerProofs.
Import PortfolioOptimizer.
Local Open Scope R_scope.

Lemma foldl_Rplus_acc (a : R) (l : list R) :
  foldl Rplus a l = a + foldl Rplus 0 l.
Proof.
  revert a. induction l as [|x l IH]; intros a; simpl.
  - lra.
  - rewrite (IH (a + x)), (IH (0 + x)). lra.
Qed.

Lemma Rsum_cons (x : R) (l : list R) : Rsum (x :: l) = x + Rsum l.
Proof. unfold Rsum. simpl. rewrite foldl_Rplus_acc. lra. Qed.

Lemma Rsum_delete (l : list R) (i : nat) (x : R) :
  l !! i = Some x -> Rsum l = x + Rsum (delete i l).
Proof.
  revert i. induction l as [|y l IH]; intros [|i] H; simplify_eq/=.
  - apply Rsum_cons.
  - rewrite !Rsum_cons, (IH i H). lra.
Qed.

Lemma Rsum_pos (l : list R) :
  l <> [] -> Forall (fun x => 0 < x) l -> 0 < Rsum l.
Proof.
  intros Hne Hl. destruct Hl as [|x l Hx Hl]; [done|]. clear Hne.
  rewrite Rsum_cons.
  enough (0 <= Rsum l) by lra.
  induction Hl as [|y l Hy Hl IH]; [unfold Rsum; simpl; lra|].
  rewrite Rsum_cons. lra.
Qed.

(** A share [a / (a + rest)] grows with [a]. *)
Lemma share_increasing (a1 a2 rest : R) :
  0 < a2 -> a2 < a1 -> 0 < rest ->
  a2 / (a2 + rest) < a1 / (a1 + rest).
Proof.
  intros H2 H12 Hrest.
  assert (a2 / (a2 + rest) = 1 - rest * / (a2 + rest)) as -> by (field; lra).
  assert (a1 / (a1 + rest) = 1 - rest * / (a1 + rest)) as -> by (field; lra).
  assert (/ (a1 + rest) < / (a2 + rest)) as Hinv.
  { apply Rinv_lt_contravar; [nra|lra]. }
  pose proof (Rmult_lt_compat_l rest _ _ Hrest Hinv). lra.
Qed.

Lemma sqrt_Q2R_pos (a : Q) : (0 < a)%Q -> 0 < sqrt (Q2R a).
Proof.
  intros H. apply sqrt_lt_R0. apply Qlt_Rlt in H. by rewrite RMicromega.Q2R_0 in H.
Qed.

Lemma sqrt_Q2R_lt (a b : Q) : (0 <= a)%Q -> (a < b)%Q -> sqrt (Q2R a) < sqrt (Q2R b).
Proof.
  intros Ha Hab. apply sqrt_lt_1_alt. split.
  - apply Qle_Rle in Ha. by rewrite RMicromega.Q2R_0 in Ha.
  - by apply Qlt_Rlt.
Qed.

(** [np.linalg.inv] on a 3 x 3 matrix, and on the rows of a singular one. *)
Example inv_3x3 :
  match inv [[1; 2; 3]; [0; 1; 4]; [5; 6; 0]]%Q with
  | Ok m => (fun row : list Q => Qred <$> row) <$> m
  | Raise _ => []
  end = [[-24; 18; 5]; [20; -15; -4]; [-5; 4; 1]]%Q.
Proof. vm_compute. reflexivity. Qed.

Example inv_singular : inv [[1; 2]; [2; 4]]%Q = Raise LinAlgError.
Proof. vm_compute. reflexivity. Qed.

Lemma risk_parity_weights_Ok (returns : ReturnsMatrix) (cov_matrix : Matrix)
    (w : list (option R)) :
  calculate_covariance_matrix returns = Some cov_matrix ->
  risk_parity_weights returns = Ok w ->
  w = Some <$> inverse_volatility_weights cov_matrix.
Proof.
  intros Hcov. unfold risk_parity_weights. rewrite Hcov.
  destruct (inv cov_matrix); [|done]. by intros [= <-].
Qed.

Lemma inverse_volatility_weight_at (cov_matrix : Matrix) (i : nat) (s : R) :
  volatilities cov_matrix !! i = Some s ->
  inverse_volatility_weights cov_matrix !! i =
  Some (1 / s / (1 / s + Rsum (delete i ((fun v => 1 / v) <$> volatilities cov_matrix)))).
Proof.
  intros Hs. unfold inverse_volatility_weights.
  rewrite !list_lookup_fmap, Hs. simpl. do 2 f_equal.
  apply Rsum_delete. by rewrite list_lookup_fmap, Hs.
Qed.

(** C8, as the code has it: with at least two assets, raising the
    volatility of asset [i] and keeping the others strictly lowers the
    weight of asset [i]. *)
Theorem risk_parity_decreasing_in_own_volatility
    (returns1 returns2 : ReturnsMatrix) (cov1 cov2 : Matrix)
    (w1 w2 : list (option R)) (i : nat) (s1 s2 : R) :
  calculate_covariance_matrix returns1 = Some cov1 ->
  calculate_covariance_matrix returns2 = Some cov2 ->
  risk_parity_weights returns1 = Ok w1 ->
  risk_parity_weights returns2 = Ok w2 ->
  (2 <= length (volatilities cov1))%nat ->
  Forall (fun s => 0 < s) (volatilities cov1) ->
  volatilities cov1 !! i = Some s1 ->
  volatilities cov2 !! i = Some s2 ->
  s1 < s2 ->
  (forall j, j <> i -> volatilities cov1 !! j = volatilities cov2 !! j) ->
  exists x1 x2,
    w1 !! i = Some (Some x1) /\ w2 !! i = Some (Some x2) /\ x2 < x1.
Proof.
  intros Hcov1 Hcov2 Hw1 Hw2 Hlen Hpos Hs1 Hs2 Hlt Hothers.
  rewrite (risk_parity_weights_Ok _ _ _ Hcov1 Hw1), (risk_parity_weights_Ok _ _ _ Hcov2 Hw2).
  rewrite !list_lookup_fmap.
  rewrite (inverse_volatility_weight_at _ _ _ Hs1), (inverse_volatility_weight_at _ _ _ Hs2).
  simpl. eexists _, _. split; [done|]. split; [done|].
  assert (delete i (volatilities cov2) = delete i (volatilities cov1)) as Hdel.
  { apply list_eq. intros j. rewrite !list_lookup_delete.
    case_decide; symmetry; apply Hothers; lia. }
  rewrite <- !list_fmap_delete, Hdel.
  assert (0 < s1) as Hs1pos.
  { rewrite Forall_lookup in Hpos. exact (Hpos _ _ Hs1). }
  set (rest := Rsum _).
  assert (0 < rest) as Hrest.
  { apply Rsum_pos.
    - intros E. apply (f_equal length) in E.
      rewrite length_fmap, length_delete in E by eauto. simpl in E. lia.
    - apply Forall_fmap, Forall_delete.
      eapply Forall_impl; [exact Hpos|]. simpl. intros s Hs.
      apply Rdiv_lt_0_compat; lra. }
  apply share_increasing; [| |done].
  - apply Rdiv_lt_0_compat; lra.
  - unfold Rdiv. rewrite !Rmult_1_l. apply Rinv_lt_contravar; [nra|done].
Qed.

Lemma risk_parity_weights_computed (returns : ReturnsMatrix) (cov_matrix inv_cov : Matrix) :
  calculate_covariance_matrix returns = Some cov_matrix ->
  inv cov_matrix = Ok inv_cov ->
  risk_parity_weights returns = Ok (Some <$> inverse_volatility_weights cov_matrix).
Proof.
  intros Hcov Hinv. unfold risk_parity_weights. by rewrite Hcov, Hinv.
Qed.

Lemma risk_parity_decreasing_in_own_volatility_witness :
  exists w1 w2 x1 x2,
    risk_parity_weights pair_calm = Ok w1 /\
    risk_parity_weights pair_wild = Ok w2 /\
    w1 !! 1%nat = Some (Some x1) /\
    w2 !! 1%nat = Some (Some x2) /\
    x2 < x1.
Proof.
  assert (calculate_covariance_matrix pair_calm = Some pair_calm_cov) as Hc1
    by (vm_compute; reflexivity).
  assert (calculate_covariance_matrix pair_wild = Some pair_wild_cov) as Hc2
    by (vm_compute; reflexivity).
  assert (exists m, inv pair_calm_cov = Ok m) as [m1 Hi1]
    by (eexists; vm_compute; reflexivity).
  assert (exists m, inv pair_wild_cov = Ok m) as [m2 Hi2]
    by (eexists; vm_compute; reflexivity).
  pose proof (risk_parity_weights_computed _ _ _ Hc1 Hi1) as Hw1.
  pose proof (risk_parity_weights_computed _ _ _ Hc2 Hi2) as Hw2.
  destruct (risk_parity_decreasing_in_own_volatility pair_calm pair_wild
              pair_calm_cov pair_wild_cov _ _ 1
              (sqrt (Q2R (nth 1 (diag pair_calm_cov) 0%Q)))
              (sqrt (Q2R (nth 1 (diag pair_wild_cov) 0%Q)))
              Hc1 Hc2 Hw1 Hw2) as (x1 & x2 & H1 & H2 & Hlt).
  - simpl. lia.
  - repeat constructor; apply sqrt_Q2R_pos; reflexivity.
  - reflexivity.
  - reflexivity.
  - apply sqrt_Q2R_lt; [unfold Qle; simpl; lia | reflexivity].
  - intros [|[|j]] Hj; [reflexivity | exfalso; exact (Hj eq_refl) | reflexivity].
  - eexists _, _, x1, x2. repeat split; eassumption.
Defined.

(** C8 as stated fails with a single asset: its weight is 1 at either
    volatility. *)
Lemma single_asset_weight_is_constant :
  exists s1 s2 x1 x2,
    calculate_covariance_matrix single_calm = Some single_calm_cov /\
    calculate_covariance_matrix single_wild = Some single_wild_cov /\
    volatilities single_calm_cov = [s1] /\
    volatilities single_wild_cov = [s2] /\
    0 < s1 /\ s1 < s2 /\
    risk_parity_weights single_calm = Ok [Some x1] /\
    risk_parity_weights single_wild = Ok [Some x2] /\
    ~ x2 < x1.
Proof.
  assert (calculate_covariance_matrix single_calm = Some single_calm_cov) as Hc1
    by (vm_compute; reflexivity).
  assert (calculate_covariance_matrix single_wild = Some single_wild_cov) as Hc2
    by (vm_compute; reflexivity).
  assert (exists m, inv single_calm_cov = Ok m) as [m1 Hi1]
    by (eexists; vm_compute; reflexivity).
  assert (exists m, inv single_wild_cov = Ok m) as [m2 Hi2]
    by (eexists; vm_compute; reflexivity).
  set (s1 := sqrt (Q2R (nth 0 (diag single_calm_cov) 0%Q))).
  set (s2 := sqrt (Q2R (nth 0 (diag single_wild_cov) 0%Q))).
  assert (0 < s1) as Hs1 by (apply sqrt_Q2R_pos; reflexivity).
  assert (s1 < s2) as Hs12 by (apply sqrt_Q2R_lt; [unfold Qle; simpl; lia | reflexivity]).
  exists s1, s2, (1 / s1 / (0 + 1 / s1)), (1 / s2 / (0 + 1 / s2)).
  split; [exact Hc1|]. split; [exact Hc2|].
  split; [reflexivity|]. split; [reflexivity|]. split; [done|]. split; [done|].
  split; [exact (risk_parity_weights_computed _ _ _ Hc1 Hi1)|].
  split; [exact (risk_parity_weights_computed _ _ _ Hc2 Hi2)|].
  assert (1 / s1 / (0 + 1 / s1) = 1) as -> by (field; lra).
  assert (1 / s2 / (0 + 1 / s2) = 1) as -> by (field; lra).
  lra.
Qed.

(** C2 (the code does otherwise): the two assets of [twin_returns] have
    nonzero variances, their covariance matrix is singular, and
    [risk_parity_weights] raises [LinAlgError] from [np.linalg.inv]. *)
Theorem risk_parity_raises_on_singular_covariance :
  calculate_covariance_matrix twin_returns = Some twin_cov /\
  Forall (fun v => ~ (v == 0)%Q) (diag twin_cov) /\
  risk_parity_weights twin_returns = Raise LinAlgError.
Proof.
  assert (calculate_covariance_matrix twin_returns = Some twin_cov) as Hc
    by (vm_compute; reflexivity).
  assert (inv twin_cov = Raise LinAlgError) as Hi
    by (vm_compute; reflexivity).
  split; [exact Hc|]. split.
  - repeat constructor; intros H; vm_compute in H; discriminate.
  - unfold risk_parity_weights. by rewrite Hc, Hi.
Qed.

End PortfolioOptimizerProofs.

Module BacktesterMore.
Import Backtester BacktesterMetrics BacktesterProofs.
Local Open Scope Q_scope.

Section Run.
Variable cfg : Config.
Variable data : DataFrame.
Variable price_column : string.

Local Abbreviation trade_step := (trade_step cfg data price_column).
Local Abbreviation step := (step cfg data price_column).
Local Abbreviation run_prefix := (run_prefix cfg data price_column).
Local Abbreviation init_results := (init_results cfg data).

(** An exception stops the loop. *)
Lemma run_prefix_raise k k' e :
  (k <= k')%nat -> run_prefix k = Raise e -> run_prefix k' = Raise e.
Proof.
  induction 1 as [|k' _ IH]; [done|]. intros H. simpl. by rewrite (IH H).
Qed.

Lemma init_results_signal t r :
  data !! t = Some r ->
  iloc init_results t "signal" =
  Ok (signal_at (generate_signals (strategy cfg) data) t).
Proof.
  intros Hr. unfold iloc, Backtester.init_results, set_column_scalar.
  rewrite !list_lookup_fmap, list_lookup_imap, Hr. simpl.
  rewrite !lookup_insert_ne by done. by rewrite lookup_insert_eq.
Qed.

Lemma init_results_has_price t r p :
  data !! t = Some r -> r !! price_column = Some p ->
  exists p', iloc init_results t price_column = Ok p'.
Proof.
  intros Hr Hp. unfold iloc, Backtester.init_results, set_column_scalar.
  rewrite !list_lookup_fmap, list_lookup_imap, Hr. simpl.
  match goal with |- context [?m !! price_column] => destruct (m !! price_column) eqn:E end;
    [eauto|].
  repeat (apply lookup_insert_None in E as [E _]). congruence.
Qed.

(** The trade of a bar never takes capital below zero. *)
Lemma trade_step_capital_nonneg i p s st st' :
  trade_step i p s st = Ok st' -> 0 <= capital st -> 0 <= capital st'.
Proof.
  intros H Hcap. unfold Backtester.trade_step in H.
  destruct (Qeq_bool s 0) eqn:Es; simpl in H; [by injection H as <-|].
  destruct (Qeq_bool s (current_position st)); simpl in H; [by injection H as <-|].
  destruct (Qeq_bool (current_position st) 0); [|by injection H as <-].
  match type of H with context [Qle_bool ?a ?b] => destruct (Qle_bool a b) eqn:E end;
    [|by injection H as <-].
  injection H as <-. simpl. apply Qle_bool_iff in E. lra.
Qed.

Lemma run_prefix_capital_nonneg k st :
  0 <= initial_capital cfg -> run_prefix k = Ok st -> 0 <= capital st.
Proof.
  intros H0. revert st. induction k as [|k IH]; intros st H.
  - by injection H as <-.
  - apply run_prefix_S in H as (st0 & Hst0 & Hs).
    apply step_inv in Hs as (p & s & st1 & _ & _ & Ht & ->). simpl.
    eapply trade_step_capital_nonneg; eauto.
Qed.

Lemma iloc_same_row (df df' : DataFrame) t c :
  df !! t = df' !! t -> iloc df t c = iloc df' t c.
Proof. intros H. unfold iloc. by rewrite H. Qed.

(** The rows of the returned table, read off the states of the run. *)
Lemma table_row out t :
  run cfg data price_column = Ok out -> (t < length data)%nat ->
  exists st_t p r,
    run_prefix (S t) = Ok st_t /\
    iloc init_results t price_column = Ok p /\
    table out !! t =
      Some (<["equity_curve"%string := mark_to_market price_column st_t p]> r) /\
    r !! "capital"%string = Some (capital st_t) /\
    r !! "portfolio_value"%string = Some (mark_to_market price_column st_t p).
Proof.
  intros Hrun Ht. apply run_final in Hrun as (Hfinal & Htable).
  destruct (recorded_rows _ _ _ _ _ Hfinal t Ht)
    as (st_t & p & r & Hst & Hp & Hr & Hcap & Hpv & Heq).
  exists st_t, p, r. repeat split; try done.
  rewrite Htable. unfold set_column. by rewrite lookup_zip_with, Hr, Heq.
Qed.

(** With flat signals every bar leaves the state as initialised. *)
Lemma flat_prefix k :
  (forall i, signal_at (generate_signals (strategy cfg) data) i == 0) ->
  Forall (fun r : gmap string Q => is_Some (r !! price_column)) data ->
  (k <= length data)%nat ->
  exists st,
    run_prefix k = Ok st /\
    capital st = initial_capital cfg /\ positions st = ∅ /\ trades st = [] /\
    current_position st = 0 /\
    equity_curve st = replicate k (initial_capital cfg).
Proof.
  intros Hflat Hcol. induction k as [|k IH]; intros Hk.
  - eexists. by split.
  - destruct IH as (st & Hst & Hcap & Hpos & Htr & Hcp & Heq); [lia|].
    destruct (lookup_lt_is_Some_2 data k) as [r Hr]; [lia|].
    rewrite Forall_lookup in Hcol. destruct (Hcol _ _ Hr) as [p0 Hp0].
    destruct (init_results_has_price _ _ _ Hr Hp0) as [p Hp].
    destruct (run_prefix_frame _ _ _ _ _ Hst) as (_ & _ & Hrows).
    assert (step k st = Ok (record_bar price_column k p st)) as Hstep.
    { unfold Backtester.step.
      rewrite (iloc_same_row (results st) init_results k price_column)
        by (apply Hrows; lia).
      rewrite Hp, bind_Ok.
      rewrite (iloc_same_row (results st) init_results k "signal")
        by (apply Hrows; lia).
      rewrite (init_results_signal _ _ Hr), bind_Ok.
      unfold Backtester.trade_step.
      specialize (Hflat k). apply Qeq_bool_iff in Hflat. by rewrite Hflat. }
    eexists. split; [simpl; by rewrite Hst, bind_Ok, Hstep|].
    simpl. repeat split; try done.
    unfold mark_to_market. rewrite Hpos, lookup_empty, Heq, Hcap.
    symmetry. apply replicate_S_end.
Qed.

End Run.

(** X1: On a table with at least one bar and no column named
    [price_column], [run] raises [KeyError] for that column (the name
    being none of the four columns [run] adds itself). *)
Theorem run_missing_price_column
    (cfg : Config) (data : DataFrame) (price_column : string) :
  data <> [] ->
  Forall (fun r : gmap string Q => r !! price_column = None) data ->
  price_column <> "signal"%string -> price_column <> "position"%string ->
  price_column <> "capital"%string -> price_column <> "portfolio_value"%string ->
  run cfg data price_column = Raise (KeyError price_column).
Proof.
  intros Hne Hcol H1 H2 H3 H4.
  destruct data as [|r rest] eqn:Hdata; [done|]. rewrite <- Hdata in *.
  assert (run_prefix cfg data price_column 1 = Raise (KeyError price_column)) as Hfirst.
  { simpl. unfold step. simpl.
    rewrite (init_results_price cfg data price_column 0) by done.
    unfold iloc. rewrite Hdata. simpl.
    rewrite Hdata in Hcol. inversion Hcol as [|? ? Hr _]; subst. by rewrite Hr. }
  unfold run.
  rewrite (run_prefix_raise cfg data price_column 1 _ (KeyError price_column)); [done| |done].
  rewrite init_results_length, Hdata. simpl. lia.
Qed.

Lemma run_missing_price_column_witness :
  run demo_cfg open_only "close" = Raise (KeyError "close").
Proof.
  apply run_missing_price_column; try done.
  repeat constructor.
Defined.

Lemma flat_run (cfg : Config) (data : DataFrame) (price_column : string) :
  (forall i, signal_at (generate_signals (strategy cfg) data) i == 0) ->
  Forall (fun r : gmap string Q => is_Some (r !! price_column)) data ->
  exists out,
    run cfg data price_column = Ok out /\
    trades (final out) = [] /\
    positions (final out) = ∅ /\
    capital (final out) = initial_capital cfg /\
    equity_curve (final out) = replicate (length data) (initial_capital cfg) /\
    forall t, (t < length data)%nat ->
      exists row,
        table out !! t = Some row /\
        row !! "capital"%string = Some (initial_capital cfg) /\
        row !! "portfolio_value"%string = Some (initial_capital cfg) /\
        row !! "equity_curve"%string = Some (initial_capital cfg).
Proof.
  intros Hflat Hcol.
  destruct (flat_prefix cfg data price_column (length data) Hflat Hcol)
    as (st & Hst & Hcap & Hpos & Htr & Hcp & Heq); [lia|].
  assert (run cfg data price_column =
          Ok {| table := set_column (results st) "equity_curve" (equity_curve st);
                returns := pct_change (column (set_column (results st) "equity_curve"
                                                 (equity_curve st)) "portfolio_value");
                final := st |}) as Hrun.
  { unfold run. by rewrite init_results_length, Hst. }
  eexists. split; [exact Hrun|]. simpl. repeat split; try done.
  intros t Ht.
  destruct (table_row _ _ _ _ t Hrun Ht) as (st_t & p & r & Hst_t & _ & Hrow & Hc & Hpv).
  destruct (flat_prefix cfg data price_column (S t) Hflat Hcol)
    as (st' & Hst' & Hcap' & Hpos' & _); [lia|].
  rewrite Hst' in Hst_t. injection Hst_t as <-.
  assert (mark_to_market price_column st' p = initial_capital cfg) as Hm.
  { unfold mark_to_market. by rewrite Hpos', lookup_empty. }
  simpl in Hrow. rewrite Hm in Hrow, Hpv. rewrite Hcap' in Hc.
  eexists. split; [exact Hrow|].
  rewrite !lookup_insert_ne by done. by rewrite lookup_insert_eq.
Qed.

(** X2: When every signal is 0 and every bar has a price, [run] returns,
    makes no trade, holds no position, and the capital, the portfolio
    value and the equity curve equal the initial capital on every bar. *)
Theorem flat_signals_leave_capital_untouched
    (cfg : Config) (data : DataFrame) (price_column : string) :
  (forall i, signal_at (generate_signals (strategy cfg) data) i == 0) ->
  Forall (fun r : gmap string Q => is_Some (r !! price_column)) data ->
  exists out,
    run cfg data price_column = Ok out /\
    trades (final out) = [] /\
    positions (final out) = ∅ /\
    capital (final out) = initial_capital cfg /\
    equity_curve (final out) = replicate (length data) (initial_capital cfg) /\
    forall t, (t < length data)%nat ->
      exists row,
        table out !! t = Some row /\
        row !! "capital"%string = Some (initial_capital cfg) /\
        row !! "portfolio_value"%string = Some (initial_capital cfg) /\
        row !! "equity_curve"%string = Some (initial_capital cfg).
Proof. apply flat_run. Qed.

Lemma flat_signals_leave_capital_untouched_witness :
  exists out,
    run idle_cfg three_bars "close" = Ok out /\
    trades (final out) = [] /\
    equity_curve (final out) = [100000; 100000; 100000].
Proof.
  destruct (flat_signals_leave_capital_untouched idle_cfg three_bars "close")
    as (out & Hrun & Htr & _ & _ & Heq & _).
  - intros [|[|[|i]]]; reflexivity.
  - repeat constructor; eexists; reflexivity.
  - exists out. repeat split; assumption.
Defined.

(** X3: With a non-negative initial capital, the cash of a run that
    returns is never negative: neither at the end nor in the [capital]
    column of any bar. *)
Theorem capital_never_negative
    (cfg : Config) (data : DataFrame) (price_column : string)
    (out : Output) (t : nat) :
  0 <= initial_capital cfg ->
  run cfg data price_column = Ok out ->
  (t < length data)%nat ->
  0 <= capital (final out) /\
  exists row cap,
    table out !! t = Some row /\ row !! "capital"%string = Some cap /\ 0 <= cap.
Proof.
  intros H0 Hrun Ht. split.
  - apply run_final in Hrun as [Hfinal _].
    eapply run_prefix_capital_nonneg; eauto.
  - destruct (table_row _ _ _ _ t Hrun Ht) as (st_t & p & r & Hst_t & _ & Hrow & Hc & _).
    eexists _, _. split; [exact Hrow|]. split.
    + by rewrite lookup_insert_ne.
    + eapply run_prefix_capital_nonneg; eauto.
Qed.

Lemma capital_never_negative_witness :
  exists out,
    run demo_cfg demo_data "close" = Ok out /\
    0 <= capital (final out) /\
    exists row cap,
      table out !! 1%nat = Some row /\ row !! "capital"%string = Some cap /\ 0 <= cap.
Proof.
  destruct (run demo_cfg demo_data "close") as [out|e] eqn:Hrun.
  - exists out. split; [reflexivity|].
    apply (capital_never_negative demo_cfg demo_data "close" out 1).
    + unfold Qle. simpl. lia.
    + exact Hrun.
    + simpl. lia.
  - vm_compute in Hrun. discriminate.
Defined.

Lemma spent_snoc ts tr :
  spent (ts ++ [tr]) == spent ts + (value tr + commission_paid tr).
Proof.
  unfold spent. induction ts as [|t ts IH]; simpl; [ring|]. rewrite IH. ring.
Qed.

Lemma trade_step_spent cfg data price_column i p s st st' :
  trade_step cfg data price_column i p s st = Ok st' ->
  capital st' + spent (trades st') == capital st + spent (trades st) /\
  (Forall (booked cfg) (trades st) -> Forall (booked cfg) (trades st')).
Proof.
  intros H. unfold trade_step in H.
  destruct (Qeq_bool s 0) eqn:Es; simpl in H; [by injection H as <-|].
  destruct (Qeq_bool s (current_position st)); simpl in H; [by injection H as <-|].
  destruct (Qeq_bool (current_position st) 0); [|by injection H as <-].
  match type of H with context [Qle_bool ?a ?b] => destruct (Qle_bool a b) eqn:E end;
    [|by injection H as <-].
  injection H as <-. simpl. split.
  - rewrite spent_snoc. simpl. ring.
  - intros Hall. apply Forall_app. split; [done|].
    repeat constructor. simpl. apply Qabs_nonneg.
Qed.

(** X4: After any number of bars, the cash plus the value and commission
    of every logged trade is the initial capital, and every logged trade
    is an opening trade: its value is quantity times price, its
    commission is the commission rate times the value, its quantity is
    not negative and it has no ['pnl'] key. *)
Theorem capital_plus_spent_is_initial_capital
    (cfg : Config) (data : DataFrame) (price_column : string)
    (k : nat) (st : State) :
  run_prefix cfg data price_column k = Ok st ->
  capital st + spent (trades st) == initial_capital cfg /\
  Forall (booked cfg) (trades st).
Proof.
  revert st. induction k as [|k IH]; intros st H.
  - injection H as <-. simpl. split; [ring|constructor].
  - apply run_prefix_S in H as (st0 & Hst0 & Hs).
    destruct (IH _ Hst0) as [Hsum Hall].
    apply step_inv in Hs as (p & s & st1 & _ & _ & Ht & ->). simpl.
    destruct (trade_step_spent _ _ _ _ _ _ _ _ Ht) as [Hsum' Hall'].
    split; [by rewrite Hsum'|auto].
Qed.

Lemma capital_plus_spent_is_initial_capital_witness :
  capital demo_after_bar1 + spent (trades demo_after_bar1) == 100000 /\
  Forall (booked demo_cfg) (trades demo_after_bar1).
Proof.
  apply (capital_plus_spent_is_initial_capital demo_cfg demo_data "close" 2).
  vm_compute. reflexivity.
Defined.

(** The bar on which a position is opened. *)
Lemma opening_step cfg data price_column i st p s :
  iloc (results st) i price_column = Ok p ->
  iloc (results st) i "signal" = Ok s ->
  current_position st == 0 ->
  ~ s == 0 ->
  let execution_price :=
    calculate_execution_price cfg p (if Qlt_bool 0 s then buy else sell) in
  let q :=
    calculate_position_size (strategy cfg)
      {| sd_signal := s; sd_price := execution_price |} (take (S i) data) in
  let trade_value := Qabs q * execution_price in
  trade_value + calculate_commission_cost cfg trade_value <= capital st ->
  exists st',
    step cfg data price_column i st = Ok st' /\
    positions st' !! price_column = Some q /\
    current_position st' = s /\
    capital st' = capital st - (trade_value + calculate_commission_cost cfg trade_value) /\
    last (equity_curve st') =
      Some (capital st - (trade_value + calculate_commission_cost cfg trade_value) + q * p).
Proof.
  intros Hp Hs Hflat Hsig execution_price q trade_value Hcap.
  eexists. unfold step. rewrite Hp, Hs, !bind_Ok. unfold trade_step.
  apply Qeq_bool_false_iff in Hsig. rewrite Hsig.
  apply Qeq_bool_iff in Hflat. rewrite Hflat.
  assert (Qeq_bool s (current_position st) = false) as ->.
  { apply Qeq_bool_false_iff. intros E. apply Qeq_bool_false_iff in Hsig.
    apply Hsig. rewrite E. by apply Qeq_bool_iff. }
  simpl negb. simpl andb. cbv beta match.
  fold execution_price. fold q. fold trade_value.
  apply Qle_bool_iff in Hcap. rewrite Hcap. cbv beta match. rewrite bind_Ok.
  split; [reflexivity|]. simpl.
  split; [by rewrite lookup_insert_eq|]. split; [done|]. split; [done|].
  rewrite last_snoc. unfold mark_to_market. simpl. by rewrite lookup_insert_eq.
Qed.

(** X5: On the bar where a flat backtester opens a long position of [q]
    units at signal price [p] that the cash can pay for, the position is
    stored under [price_column] and the portfolio value recorded for the
    bar is the cash before the bar less [q * p * (slippage + commission
    + slippage * commission)]. *)
Theorem long_entry_costs_slippage_and_commission
    (cfg : Config) (data : DataFrame) (price_column : string)
    (i : nat) (st : State) (p s : Q) :
  iloc (results st) i price_column = Ok p ->
  iloc (results st) i "signal" = Ok s ->
  current_position st == 0 ->
  0 < s ->
  (let q :=
     calculate_position_size (strategy cfg)
       {| sd_signal := s; sd_price := p * (1 + slippage cfg) |} (take (S i) data) in
   0 <= q /\
   q * (p * (1 + slippage cfg)) * (1 + commission cfg) <= capital st) ->
  exists st' q pv,
    step cfg data price_column i st = Ok st' /\
    positions st' !! price_column = Some q /\
    last (equity_curve st') = Some pv /\
    pv == capital st
          - q * p * (slippage cfg + commission cfg + slippage cfg * commission cfg).
Proof.
  intros Hp Hs Hflat Hpos [Hq Hcap].
  assert (Qlt_bool 0 s = true) as Hlong by by apply Qlt_bool_iff.
  destruct (opening_step cfg data price_column i st p s Hp Hs Hflat)
    as (st' & Hstep & Hposn & _ & _ & Hlast).
  - intros E. rewrite E in Hpos. lra.
  - rewrite Hlong. unfold calculate_execution_price, calculate_commission_cost.
    rewrite Qabs_pos by done. lra.
  - rewrite Hlong in Hposn, Hlast.
    unfold calculate_execution_price, calculate_commission_cost in *.
    eexists _, _, _. split; [exact Hstep|]. split; [exact Hposn|].
    split; [exact Hlast|].
    rewrite Qabs_pos by done. ring.
Qed.

Lemma long_entry_costs_slippage_and_commission_witness :
  exists st' q pv,
    step demo_cfg demo_data "close" 0 (init_state demo_cfg demo_data) = Ok st' /\
    positions st' !! "close"%string = Some q /\
    last (equity_curve st') = Some pv /\
    pv == 100000 - q * 100 * ((5 # 10000) + (1 # 1000) + (5 # 10000) * (1 # 1000)).
Proof.
  apply (long_entry_costs_slippage_and_commission demo_cfg demo_data "close" 0
           (init_state demo_cfg demo_data) 100 1).
  - vm_compute. reflexivity.
  - vm_compute. reflexivity.
  - reflexivity.
  - reflexivity.
  - split; vm_compute; discriminate.
Defined.

(** X6: On the bar where a flat backtester opens a short position with a
    negative quantity [q] (as the strategies of the repository size
    their shorts) at signal price [p], the cash is not credited but
    debited with the absolute trade value and the commission, and the
    portfolio value recorded for the bar is the cash before the bar plus
    [q * p * ((1 - slippage) * (1 + commission) + 1)], that is, below it
    by about twice the trade value. *)
Theorem short_entry_is_booked_as_a_purchase
    (cfg : Config) (data : DataFrame) (price_column : string)
    (i : nat) (st : State) (p s : Q) :
  iloc (results st) i price_column = Ok p ->
  iloc (results st) i "signal" = Ok s ->
  current_position st == 0 ->
  s < 0 ->
  (let q :=
     calculate_position_size (strategy cfg)
       {| sd_signal := s; sd_price := p * (1 - slippage cfg) |} (take (S i) data) in
   q <= 0 /\
   - q * (p * (1 - slippage cfg)) * (1 + commission cfg) <= capital st) ->
  exists st' q pv,
    step cfg data price_column i st = Ok st' /\
    positions st' !! price_column = Some q /\
    capital st' == capital st + q * (p * (1 - slippage cfg)) * (1 + commission cfg) /\
    last (equity_curve st') = Some pv /\
    pv == capital st + q * p * ((1 - slippage cfg) * (1 + commission cfg) + 1).
Proof.
  intros Hp Hs Hflat Hneg [Hq Hcap].
  assert (Qlt_bool 0 s = false) as Hshort by (apply Qlt_bool_false_iff; lra).
  destruct (opening_step cfg data price_column i st p s Hp Hs Hflat)
    as (st' & Hstep & Hposn & _ & Hcapital & Hlast).
  - intros E. rewrite E in Hneg. lra.
  - rewrite Hshort. unfold calculate_execution_price, calculate_commission_cost.
    rewrite Qabs_neg by done. lra.
  - rewrite Hshort in Hposn, Hcapital, Hlast.
    unfold calculate_execution_price, calculate_commission_cost in *.
    eexists _, _, _. split; [exact Hstep|]. split; [exact Hposn|].
    split; [rewrite Hcapital, Qabs_neg by done; ring|].
    split; [exact Hlast|].
    rewrite Qabs_neg by done. ring.
Qed.

Lemma short_entry_is_booked_as_a_purchase_witness :
  exists st' q pv,
    step short_cfg demo_data "close" 0 (init_state short_cfg demo_data) = Ok st' /\
    positions st' !! "close"%string = Some q /\
    capital st' == 100000 + q * (100 * (1 - (5 # 10000))) * (1 + (1 # 1000)) /\
    last (equity_curve st') = Some pv /\
    pv == 100000 + q * 100 * ((1 - (5 # 10000)) * (1 + (1 # 1000)) + 1).
Proof.
  apply (short_entry_is_booked_as_a_purchase short_cfg demo_data "close" 0
           (init_state short_cfg demo_data) 100 (-1)).
  - vm_compute. reflexivity.
  - vm_compute. reflexivity.
  - reflexivity.
  - reflexivity.
  - split; vm_compute; discriminate.
Defined.

Lemma winning_has_nonzero_pnl tr : is_winning tr = true -> has_nonzero_pnl tr = true.
Proof.
  unfold is_winning, has_nonzero_pnl. destruct (pnl tr) as [p|]; simpl.
  - intros H. apply Qlt_bool_iff in H. apply negb_true_iff, Qeq_bool_false_iff. lra.
  - intros H. apply Qlt_bool_iff in H. lra.
Qed.

Lemma winning_count_le ts :
  (length (List.filter is_winning ts) <= length (List.filter has_nonzero_pnl ts))%nat.
Proof.
  induction ts as [|tr ts IH]; simpl; [lia|].
  destruct (is_winning tr) eqn:E.
  - rewrite (winning_has_nonzero_pnl _ E). simpl. lia.
  - destruct (has_nonzero_pnl tr); simpl; lia.
Qed.

(** X7: For every trade log, [_calculate_win_rate] lies between 0 and 1. *)
Theorem win_rate_between_0_and_1 (ts : list Trade) :
  0 <= _calculate_win_rate ts /\ _calculate_win_rate ts <= 1.
Proof.
  unfold _calculate_win_rate.
  destruct (length ts <? 2)%nat; [lra|].
  pose proof (winning_count_le ts) as Hle.
  set (w := length (List.filter is_winning ts)) in *.
  set (n := length (List.filter has_nonzero_pnl ts)) in *.
  destruct (Nat.eqb_spec n 0) as [|Hn]; [lra|].
  assert (0 < inject_Z (Z.of_nat n)) as Hpos.
  { change 0 with (inject_Z 0). rewrite <- Zlt_Qlt. lia. }
  assert (0 <= inject_Z (Z.of_nat w)) as Hw.
  { change 0 with (inject_Z 0). rewrite <- Zle_Qle. lia. }
  assert (inject_Z (Z.of_nat w) <= inject_Z (Z.of_nat n)) as Hwn.
  { rewrite <- Zle_Qle. lia. }
  split.
  - apply Qle_shift_div_l; [done|]. lra.
  - apply Qle_shift_div_r; [done|]. lra.
Qed.

Lemma column_length (df : DataFrame) c : (length (column df c) <= length df)%nat.
Proof.
  unfold column. induction df as [|r df IH]; [done|].
  cbn. destruct (r !! c); cbn; lia.
Qed.

Lemma dropna_short_pct_change (values : list Q) :
  (length values <= 1)%nat -> risk_metrics.dropna (pct_change values) = [].
Proof.
  destruct values as [|v [|v' rest]]; simpl; [done|done|lia].
Qed.

(** X8: When [run] returns on a table of at most one bar,
    [get_performance_metrics] on its result is the empty dict. *)
Theorem no_metrics_for_at_most_one_bar
    (cfg : Config) (data : DataFrame) (price_column : string) (out : Output) :
  run cfg data price_column = Ok out ->
  (length data <= 1)%nat ->
  get_performance_metrics cfg (trades (final out)) (returns out)
    (column (table out) "portfolio_value") = Ok None.
Proof.
  intros Hrun Hlen.
  pose proof Hrun as Hrun'. apply run_final in Hrun' as [Hfinal Htable].
  destruct (run_prefix_frame _ _ _ _ _ Hfinal) as (Hres & _ & _).
  rewrite init_results_length in Hres.
  unfold run in Hrun. apply bind_Ok_inv in Hrun as (st & Hst & Hout).
  injection Hout as <-. simpl in *.
  unfold get_performance_metrics.
  rewrite dropna_short_pct_change; [done|].
  etrans; [apply column_length|].
  unfold set_column. rewrite length_zip_with. lia.
Qed.

Lemma no_metrics_for_at_most_one_bar_witness :
  exists out,
    run demo_cfg [ {[ "close"%string := 100 ]} ] "close" = Ok out /\
    get_performance_metrics demo_cfg (trades (final out)) (returns out)
      (column (table out) "portfolio_value") = Ok None.
Proof.
  destruct (run demo_cfg [ {[ "close"%string := 100 ]} ] "close") as [out|e] eqn:Hrun.
  - exists out. split; [reflexivity|].
    apply (no_metrics_for_at_most_one_bar demo_cfg [ {[ "close"%string := 100 ]} ] "close");
      [exact Hrun | simpl; lia].
  - vm_compute in Hrun. discriminate.
Defined.

End BacktesterMore.

Module RiskMetricsMore.
Import risk_metrics RiskMetricsProofs.
Local Open Scope Q_scope.

(** *** [np.percentile] *)

Lemma insert_sorted_In (x y : Q) (a : list Q) :
  In y (insert_sorted x a) -> y = x \/ In y a.
Proof.
  induction a as [|z a IH]; simpl.
  - intros [<-|[]]. by left.
  - destruct (Qle_bool x z); simpl.
    + intros [<-|H]; [by left | by right].
    + intros [<-|H]; [right; by left|]. destruct (IH H); [by left | right; by right].
Qed.

Lemma insert_sorted_length (x : Q) (a : list Q) :
  length (insert_sorted x a) = S (length a).
Proof.
  induction a as [|z a IH]; simpl; [done|].
  destruct (Qle_bool x z); simpl; by rewrite ?IH.
Qed.

Lemma sort_In (y : Q) (a : list Q) : In y (sort a) -> In y a.
Proof.
  unfold sort. induction a as [|x a IH]; simpl; [done|].
  intros H. apply insert_sorted_In in H as [->|H]; [by left | right; auto].
Qed.

Lemma sort_length (a : list Q) : length (sort a) = length a.
Proof.
  unfold sort. induction a as [|x a IH]; simpl; [done|].
  by rewrite insert_sorted_length, IH.
Qed.

(** A percentile is an interpolation between two entries of the array. *)
Lemma percentile_interpolates (a : list Q) (q p : Q) :
  a <> [] -> percentile a q = Ok p ->
  exists lower upper gamma,
    In lower a /\ In upper a /\ 0 <= gamma /\ gamma <= 1 /\
    p = lower + (upper - lower) * gamma.
Proof.
  intros Hne Hp. unfold percentile in Hp.
  destruct (Qle_bool 0 (q / 100)) eqn:H0; [|done].
  destruct (Qle_bool (q / 100) 1) eqn:H1; [|done].
  simpl andb in Hp. cbv beta match zeta in Hp.
  apply Qle_bool_iff in H0, H1.
  set (n := length a) in *.
  assert (1 <= n)%nat as Hn by (subst n; destruct a; simpl; [done|lia]).
  set (v := inject_Z (Z.of_nat (n - 1)) * (q / 100)) in *.
  assert (0 <= inject_Z (Z.of_nat (n - 1))) as Hn0.
  { change 0 with (inject_Z 0). rewrite <- Zle_Qle. lia. }
  assert (0 <= v) as Hv0 by (subst v; nra).
  assert (v <= inject_Z (Z.of_nat (n - 1))) as Hv1 by (subst v; nra).
  assert (0 <= Qfloor v)%Z as Hf0.
  { rewrite <- (Qfloor_Z 0). by apply Qfloor_resp_le. }
  assert (Qfloor v <= Z.of_nat (n - 1))%Z as Hf1.
  { rewrite <- (Qfloor_Z (Z.of_nat (n - 1))). by apply Qfloor_resp_le. }
  pose proof (Qfloor_le v) as Hg0. pose proof (Qlt_floor v) as Hg1.
  rewrite inject_Z_plus in Hg1. change (inject_Z 1) with 1 in Hg1.
  assert (Z.to_nat (Qfloor v) < length (sort a))%nat as Hprev.
  { rewrite sort_length. fold n. lia. }
  assert (S (Z.to_nat (Qfloor v)) `min` (n - 1) < length (sort a))%nat as Hnext.
  { rewrite sort_length. fold n. lia. }
  injection Hp as <-.
  exists (nth (Z.to_nat (Qfloor v)) (sort a) 0),
         (nth (S (Z.to_nat (Qfloor v)) `min` (n - 1)) (sort a) 0),
         (v - inject_Z (Qfloor v)).
  split; [by apply sort_In, nth_In|]. split; [by apply sort_In, nth_In|].
  split; [lra|]. split; [lra|]. reflexivity.
Qed.

Lemma percentile_bounds (a : list Q) (q p lo hi : Q) :
  a <> [] -> Forall (fun x => lo <= x /\ x <= hi) a ->
  percentile a q = Ok p -> lo <= p /\ p <= hi.
Proof.
  intros Hne Hall Hp.
  destruct (percentile_interpolates a q p Hne Hp)
    as (lower & upper & gamma & Hl & Hu & Hg0 & Hg1 & ->).
  rewrite List.Forall_forall in Hall.
  destruct (Hall _ Hl), (Hall _ Hu). nra.
Qed.

Lemma percentile_positive (a : list Q) (q p : Q) :
  a <> [] -> Forall (fun x => 0 < x) a -> percentile a q = Ok p -> 0 < p.
Proof.
  intros Hne Hall Hp.
  destruct (percentile_interpolates a q p Hne Hp)
    as (lower & upper & gamma & Hl & Hu & Hg0 & Hg1 & ->).
  rewrite List.Forall_forall in Hall.
  pose proof (Hall _ Hl). pose proof (Hall _ Hu). nra.
Qed.

Lemma sum_ge_bound (t : Q) (l : list Q) :
  Forall (fun x => t <= x) l -> t * count l <= sum l.
Proof.
  induction 1 as [|x l Hx Hl IH].
  - unfold sum, count. simpl. change (inject_Z (Z.of_nat 0)) with 0. lra.
  - rewrite sum_cons, count_cons. lra.
Qed.

Lemma mean_ge_bound (t : Q) (l : list Q) :
  l <> [] -> Forall (fun x => t <= x) l -> t <= sum l / count l.
Proof.
  intros Hne Hall. destruct l as [|x l]; [done|].
  apply Qle_shift_div_l; [apply count_pos|].
  by apply sum_ge_bound.
Qed.

Lemma filter_none (f : Q -> bool) (l : list Q) :
  Forall (fun x => f x = false) l -> List.filter f l = [].
Proof. induction 1 as [|x l Hx _ IH]; simpl; [done|]. by rewrite Hx. Qed.

Lemma filter_all (f : Q -> bool) (l : list Q) :
  Forall (fun x => f x = true) l -> List.filter f l = l.
Proof. induction 1 as [|x l Hx _ IH]; simpl; [done|]. by rewrite Hx, IH. Qed.

Lemma filter_Forall (P : Q -> Prop) (f : Q -> bool) (l : list Q) :
  Forall P l -> Forall P (List.filter f l).
Proof.
  induction 1 as [|x l Hx _ IH]; simpl; [constructor|].
  destruct (f x); [by constructor | done].
Qed.

(** The two functions on the values left after [dropna]. *)
Lemma var_cvar_unfold (s : Series) (c : Q) (x : Q) (l : list Q) (p : Q) :
  dropna s = x :: l ->
  percentile (x :: l) ((1 - c) * 100) = Ok p ->
  calculate_var s c = Ok (Qabs p) /\
  calculate_cvar s c =
    let tail_losses := List.filter (fun r => Qle_bool r (- Qabs p)) (x :: l) in
    if (length tail_losses =? 0)%nat then Ok (Qabs p)
    else Ok (Qabs (sum tail_losses / count tail_losses)).
Proof.
  intros Hl Hp. unfold calculate_var, calculate_cvar, calculate_var_values.
  rewrite Hl.
  destruct (Nat.eqb_spec (length (x :: l)) 0) as [E|_]; [done|].
  by rewrite Hp, bind_Ok, bind_ret.
Qed.

Lemma var_cvar_bounds (s : Series) (c bound : Q) :
  0 < c -> c < 1 -> 0 <= bound ->
  Forall (fun r => Qabs r <= bound) (dropna s) ->
  exists v cv,
    calculate_var s c = Ok v /\ calculate_cvar s c = Ok cv /\
    (0 <= v /\ v <= bound) /\ (0 <= cv /\ cv <= bound).
Proof.
  intros H0 H1 Hb Hall.
  destruct (dropna s) as [|x l] eqn:Hl.
  { exists 0, 0. unfold calculate_var, calculate_cvar, calculate_var_values.
    rewrite Hl. simpl. repeat split; done || lra. }
  destruct (percentile_in_range (x :: l) c H0 H1) as [p Hp].
  destruct (var_cvar_unfold s c x l p Hl Hp) as [-> ->].
  assert (Forall (fun r => - bound <= r /\ r <= bound) (x :: l)) as Hrange.
  { eapply Forall_impl; [exact Hall|]. intros r Hr. by apply Qabs_Qle_condition. }
  assert (Qabs p <= bound) as Hv.
  { apply Qabs_Qle_condition. by apply (percentile_bounds (x :: l) ((1 - c) * 100)). }
  cbv zeta.
  set (tail_losses := List.filter _ (x :: l)).
  pose proof (Qabs_nonneg p) as Hv0.
  destruct (length tail_losses =? 0)%nat eqn:Hlen.
  { eexists _, _. repeat split; done. }
  eexists _, _. split; [done|]. split; [done|]. split; [done|].
  split; [apply Qabs_nonneg|].
  assert (tail_losses <> []) as Hne.
  { intros E. rewrite E in Hlen. done. }
  assert (Forall (fun r => - bound <= r /\ r <= bound) tail_losses) as Htail
    by by apply filter_Forall.
  apply Qabs_Qle_condition. split.
  - apply mean_ge_bound; [done|]. eapply Forall_impl; [exact Htail|]. by intros r [? ?].
  - apply mean_le_bound; [done|]. eapply Forall_impl; [exact Htail|]. by intros r [? ?].
Qed.

(** X9: For a confidence level strictly between 0 and 1, [calculate_var]
    and [calculate_cvar] return, and neither result exceeds a bound on
    the absolute value of every return. *)
Theorem var_and_cvar_within_largest_return (s : Series) (c bound : Q) :
  0 < c -> c < 1 -> 0 <= bound ->
  Forall (fun r => Qabs r <= bound) (dropna s) ->
  exists v cv,
    calculate_var s c = Ok v /\ calculate_cvar s c = Ok cv /\
    v <= bound /\ cv <= bound.
Proof.
  intros H0 H1 Hb Hall.
  destruct (var_cvar_bounds s c bound H0 H1 Hb Hall) as (v & cv & Hv & Hcv & [_ ?] & [_ ?]).
  by exists v, cv.
Qed.

Lemma var_and_cvar_within_largest_return_witness :
  exists v cv,
    calculate_var [Some (-3); None; Some 1; Some 4; Some (-2)] (95 # 100) = Ok v /\
    calculate_cvar [Some (-3); None; Some 1; Some 4; Some (-2)] (95 # 100) = Ok cv /\
    v <= 4 /\ cv <= 4.
Proof.
  apply (var_and_cvar_within_largest_return
           [Some (-3); None; Some 1; Some 4; Some (-2)] (95 # 100) 4).
  - reflexivity.
  - reflexivity.
  - unfold Qle. simpl. lia.
  - repeat constructor; unfold Qle; simpl; lia.
Defined.

(** X10: For a non-empty series in which every return is a gain,
    [calculate_var] and [calculate_cvar] return the same strictly
    positive number: the absolute value turns a gain at the percentile
    into a reported loss. *)
Theorem gains_only_series_has_positive_var (s : Series) (c : Q) :
  0 < c -> c < 1 ->
  dropna s <> [] ->
  Forall (fun r => 0 < r) (dropna s) ->
  exists v,
    calculate_var s c = Ok v /\ calculate_cvar s c = Ok v /\ 0 < v.
Proof.
  intros H0 H1 Hne Hall.
  destruct (dropna s) as [|x l] eqn:Hl; [done|].
  destruct (percentile_in_range (x :: l) c H0 H1) as [p Hp].
  destruct (var_cvar_unfold s c x l p Hl Hp) as [-> ->].
  assert (0 < p) as Hpos by by apply (percentile_positive (x :: l) ((1 - c) * 100)).
  assert (0 < Qabs p) as Hv by (rewrite Qabs_pos; lra).
  exists (Qabs p). split; [done|]. split; [|done].
  cbv zeta. rewrite filter_none; [done|].
  eapply Forall_impl; [exact Hall|]. intros r Hr. cbv beta in *.
  apply Qle_bool_false_iff. lra.
Qed.

Lemma gains_only_series_has_positive_var_witness :
  exists v,
    calculate_var [Some (1 # 100); None; Some (3 # 100)] (95 # 100) = Ok v /\
    calculate_cvar [Some (1 # 100); None; Some (3 # 100)] (95 # 100) = Ok v /\
    0 < v.
Proof.
  apply (gains_only_series_has_positive_var [Some (1 # 100); None; Some (3 # 100)] (95 # 100)).
  - reflexivity.
  - reflexivity.
  - discriminate.
  - repeat constructor.
Defined.

(** *** Series without variance, series of one observation *)

Lemma dropna_replicate_Some (n : nat) (c : Q) :
  dropna (replicate n (Some c)) = replicate n c.
Proof. induction n as [|n IH]; [done|]. unfold dropna in *. simpl. by f_equal. Qed.

Lemma sum_replicate (n : nat) (c : Q) :
  sum (replicate n c) == inject_Z (Z.of_nat n) * c.
Proof.
  induction n as [|n IH].
  - unfold sum. simpl. change (inject_Z (Z.of_nat 0)) with 0. ring.
  - change (replicate (S n) c) with (c :: replicate n c).
    rewrite sum_cons, IH, Nat2Z.inj_succ, <- Z.add_1_l, inject_Z_plus.
    change (inject_Z 1) with 1. ring.
Qed.

Lemma count_replicate (n : nat) (c : Q) :
  count (replicate n c) = inject_Z (Z.of_nat n).
Proof. unfold count. by rewrite length_replicate. Qed.

Lemma var_replicate (n : nat) (c : Q) :
  (2 <= n)%nat -> exists v, var (replicate n c) = Some v /\ v == 0.
Proof.
  intros Hn. destruct n as [|[|n]]; [lia|lia|].
  set (N := S (S n)).
  eexists. split.
  { change (replicate N c) with (c :: c :: replicate n c). unfold var.
    change (c :: c :: replicate n c) with (replicate N c). reflexivity. }
  cbv zeta. rewrite fmap_replicate, !sum_replicate, !count_replicate.
  assert (0 < inject_Z (Z.of_nat N)) as HN.
  { change 0 with (inject_Z 0). rewrite <- Zlt_Qlt. lia. }
  assert (inject_Z (Z.of_nat N) * c / inject_Z (Z.of_nat N) == c) as -> by (field; lra).
  unfold Qdiv. ring.
Qed.

Lemma std_replicate (n : nat) (c : Q) :
  (2 <= n)%nat -> std (replicate n c) = Some 0%R.
Proof.
  intros Hn. destruct (var_replicate n c Hn) as (v & Hv & Hzero).
  unfold std. rewrite Hv. simpl. f_equal.
  rewrite (Qeq_eqR _ _ Hzero), RMicromega.Q2R_0. apply sqrt_0.
Qed.

Lemma is_zero_0 : RiskMetrics.is_zero (Some 0%R) = true.
Proof. unfold RiskMetrics.is_zero. by destruct (Req_dec_T 0 0). Qed.

(** With the exact standard deviation both ratios of a series of equal
    returns are 0; used below on a series of zero returns, where the
    floating-point standard deviation is 0 as well. *)
Lemma constant_series_ratios
    (n : nat) (c risk_free_rate : Q) (periods_per_year : positive) :
  (2 <= n)%nat ->
  let self := {| RiskMetrics.returns := replicate n c |} in
  RiskMetrics.calculate_sharpe_ratio self risk_free_rate periods_per_year = Some 0%R /\
  RiskMetrics.calculate_sortino_ratio self risk_free_rate periods_per_year = Some 0%R.
Proof.
  intros Hn self. subst self.
  unfold RiskMetrics.calculate_sharpe_ratio, RiskMetrics.calculate_sortino_ratio.
  simpl RiskMetrics.returns. rewrite length_replicate.
  destruct (Nat.eqb_spec n 0) as [|_]; [lia|].
  cbv zeta. rewrite fmap_replicate.
  set (e := c - RiskMetrics.per_period risk_free_rate periods_per_year).
  split.
  - by rewrite std_replicate, is_zero_0.
  - destruct (Qlt_bool e 0) eqn:E.
    + rewrite filter_all by (apply Forall_replicate; exact E).
      rewrite std_replicate, is_zero_0 by done. by rewrite orb_true_r.
    + rewrite filter_none by (apply Forall_replicate; exact E). done.
Qed.

(** [calculate_cvar] returns whenever [calculate_var] does. *)
Lemma metrics_never_raise (l : list Q) (risk_free_rate : Q) (periods_per_year : positive) :
  exists v cv,
    RiskMetrics.get_all_metrics {| RiskMetrics.returns := l |}
      risk_free_rate periods_per_year =
    Ok {| RiskMetrics.sharpe_ratio :=
            RiskMetrics.calculate_sharpe_ratio {| RiskMetrics.returns := l |}
              risk_free_rate periods_per_year;
          RiskMetrics.sortino_ratio :=
            RiskMetrics.calculate_sortino_ratio {| RiskMetrics.returns := l |}
              risk_free_rate periods_per_year;
          RiskMetrics.max_drawdown :=
            RiskMetrics.calculate_max_drawdown {| RiskMetrics.returns := l |};
          RiskMetrics.calmar_ratio :=
            RiskMetrics.calculate_calmar_ratio {| RiskMetrics.returns := l |}
              periods_per_year;
          RiskMetrics.var_95 := v;
          RiskMetrics.cvar_95 := cv;
          RiskMetrics.volatility :=
            (fun s => s * RiskMetrics.sqrt_periods periods_per_year)%R <$> std l;
          RiskMetrics.annual_return :=
            (fun m => m * inject_Z (Zpos periods_per_year)) <$> mean l |} /\
    calculate_var (Some <$> l) (95 # 100) = Ok v /\
    calculate_cvar (Some <$> l) (95 # 100) = Ok cv.
Proof.
  unfold RiskMetrics.get_all_metrics, RiskMetrics.calculate_var, RiskMetrics.calculate_cvar.
  simpl RiskMetrics.returns.
  assert (exists v cv, calculate_var (Some <$> l) (95 # 100) = Ok v /\
                       calculate_cvar (Some <$> l) (95 # 100) = Ok cv) as (v & cv & Hv & Hcv).
  { destruct l as [|x l].
    - by exists 0, 0.
    - destruct (percentile_in_range (x :: l) (95 # 100)) as [p Hp]; [done|done|].
      destruct (var_cvar_unfold (Some <$> x :: l) (95 # 100) x l p) as [Hv Hcv];
        [apply dropna_Some | done |].
      rewrite Hv, Hcv. cbv zeta.
      destruct (length _ =? 0)%nat; eauto. }
  exists v, cv. by rewrite Hv, Hcv.
Qed.

(** X12: For a series of one return, [get_all_metrics] returns, and its
    Sharpe ratio and its volatility are NaN. *)
Theorem single_observation_has_nan_sharpe_and_volatility
    (r risk_free_rate : Q) (periods_per_year : positive) :
  exists m,
    RiskMetrics.get_all_metrics (RiskMetrics.__init__ [Some r])
      risk_free_rate periods_per_year = Ok m /\
    RiskMetrics.sharpe_ratio m = None /\
    RiskMetrics.volatility m = None.
Proof.
  destruct (metrics_never_raise [r] risk_free_rate periods_per_year)
    as (v & cv & Hm & _).
  eexists. split; [exact Hm|]. by split.
Qed.

(** X13: When no return is below the per-period risk-free rate, the
    Sortino ratio is 0. *)
Theorem sortino_is_zero_without_losing_period
    (s : Series) (risk_free_rate : Q) (periods_per_year : positive) :
  Forall (fun r => RiskMetrics.per_period risk_free_rate periods_per_year <= r) (dropna s) ->
  RiskMetrics.calculate_sortino_ratio (RiskMetrics.__init__ s)
    risk_free_rate periods_per_year = Some 0%R.
Proof.
  intros Hall. unfold RiskMetrics.calculate_sortino_ratio, RiskMetrics.__init__.
  simpl RiskMetrics.returns.
  destruct (length (dropna s) =? 0)%nat; [done|].
  cbv zeta. rewrite filter_none; [done|].
  apply Forall_fmap. eapply Forall_impl; [exact Hall|].
  intros r Hr. cbv beta in *. simpl. apply Qlt_bool_false_iff. lra.
Qed.

Lemma sortino_is_zero_without_losing_period_witness :
  RiskMetrics.calculate_sortino_ratio
    (RiskMetrics.__init__ [Some (1 # 100); None; Some (5 # 100)]) 0 252 = Some 0%R.
Proof.
  apply sortino_is_zero_without_losing_period.
  repeat constructor; vm_compute; discriminate.
Defined.

Lemma mean_is_Some (x : Q) (l : list Q) : exists m, mean (x :: l) = Some m.
Proof. eexists. reflexivity. Qed.

(** X14: When exactly one return is below the per-period risk-free rate,
    the Sortino ratio is NaN. *)
Theorem sortino_is_nan_with_one_losing_period
    (s : Series) (before after : list Q) (r risk_free_rate : Q)
    (periods_per_year : positive) :
  dropna s = before ++ r :: after ->
  r < RiskMetrics.per_period risk_free_rate periods_per_year ->
  Forall (fun x => RiskMetrics.per_period risk_free_rate periods_per_year <= x)
         (before ++ after) ->
  RiskMetrics.calculate_sortino_ratio (RiskMetrics.__init__ s)
    risk_free_rate periods_per_year = None.
Proof.
  intros Hs Hr Hall. apply Forall_app in Hall as [Hb Ha].
  unfold RiskMetrics.calculate_sortino_ratio, RiskMetrics.__init__.
  simpl RiskMetrics.returns. rewrite Hs.
  destruct (Nat.eqb_spec (length (before ++ r :: after)) 0) as [E|_].
  { rewrite length_app in E. simpl in E. lia. }
  cbv zeta.
  set (pp := RiskMetrics.per_period risk_free_rate periods_per_year) in *.
  set (excess := (fun x => x - pp) <$> before ++ r :: after).
  assert (List.filter (fun e => Qlt_bool e 0) excess = [r - pp]) as ->.
  { assert (forall l, Forall (fun x => pp <= x) l ->
                      List.filter (fun e => Qlt_bool e 0) ((fun x => x - pp) <$> l) = [])
      as Hnone.
    { intros l Hl. apply filter_none, Forall_fmap.
      eapply Forall_impl; [exact Hl|]. intros x Hx. cbv beta in *. simpl.
      apply Qlt_bool_false_iff. lra. }
    subst excess. rewrite fmap_app, fmap_cons, List.filter_app. simpl List.filter.
    assert (Qlt_bool (r - pp) 0 = true) as -> by (apply Qlt_bool_iff; lra).
    by rewrite !Hnone. }
  clearbody excess. unfold std, var. simpl. by destruct (mean excess).
Qed.

Lemma sortino_is_nan_with_one_losing_period_witness :
  RiskMetrics.calculate_sortino_ratio
    (RiskMetrics.__init__ [Some (1 # 100); Some (-2 # 100); None; Some (5 # 100)]) 0 252
  = None.
Proof.
  apply (sortino_is_nan_with_one_losing_period _ [1 # 100] [5 # 100] (-2 # 100)).
  - reflexivity.
  - reflexivity.
  - repeat constructor; vm_compute; discriminate.
Defined.

(** X15: [get_all_metrics] returns for every series, with or without NaN
    entries, empty or not: none of the eight computations raises. *)
Theorem get_all_metrics_never_raises
    (s : Series) (risk_free_rate : Q) (periods_per_year : positive) :
  exists m,
    RiskMetrics.get_all_metrics (RiskMetrics.__init__ s)
      risk_free_rate periods_per_year = Ok m.
Proof.
  destruct (metrics_never_raise (dropna s) risk_free_rate periods_per_year)
    as (v & cv & Hm & _).
  eexists. exact Hm.
Qed.

(** *** Drawdown *)

Lemma max_drawdown_of_gains (l : list Q) :
  Forall (fun r => 0 <= r) l ->
  exists d,
    RiskMetrics.calculate_max_drawdown {| RiskMetrics.returns := l |} = Some d /\ d == 0.
Proof.
  intros Hall. unfold RiskMetrics.calculate_max_drawdown. simpl RiskMetrics.returns.
  destruct l as [|x l]; [by exists 0|].
  destruct (Nat.eqb_spec (length (x :: l)) 0) as [E|_]; [done|].
  rewrite fmap_cons. unfold cumprod. fold cumprod_from.
  unfold expanding_max. fold expanding_max_from.
  inversion Hall as [|? ? Hx Hl]; subst.
  set (drawdown := zip_with _ _ _).
  destruct (series_min_closed (fun v => v == 0) drawdown) as (v & Hv & Hzero).
  - done.
  - apply drawdown_entries_zero. constructor; [split; [lra|reflexivity]|].
    apply nondecreasing_running_max; [lra|reflexivity|].
    apply Forall_fmap. eapply Forall_impl; [exact Hl|]. intros r Hr. cbv beta in *.
    simpl. lra.
  - exists (Qabs v). rewrite Hv. split; [done|]. by rewrite Hzero.
Qed.

Lemma calmar_of_gains (l : list Q) (periods_per_year : positive) :
  Forall (fun r => 0 <= r) l ->
  RiskMetrics.calculate_calmar_ratio {| RiskMetrics.returns := l |} periods_per_year
  = Some 0.
Proof.
  intros Hall. unfold RiskMetrics.calculate_calmar_ratio.
  simpl RiskMetrics.returns.
  destruct (length l =? 0)%nat; [done|].
  destruct (max_drawdown_of_gains l Hall) as (d & -> & Hd).
  cbv zeta. apply Qeq_bool_iff in Hd. by rewrite Hd.
Qed.

(** X16: When no return is negative, the Calmar ratio is 0. *)
Theorem calmar_is_zero_without_losing_period (s : Series) (periods_per_year : positive) :
  Forall (fun r => 0 <= r) (dropna s) ->
  RiskMetrics.calculate_calmar_ratio (RiskMetrics.__init__ s) periods_per_year = Some 0.
Proof. intros Hall. by apply calmar_of_gains. Qed.

Lemma calmar_is_zero_without_losing_period_witness :
  RiskMetrics.calculate_calmar_ratio
    (RiskMetrics.__init__ [Some (1 # 100); None; Some (5 # 100)]) 252 = Some 0.
Proof.
  apply calmar_is_zero_without_losing_period.
  repeat constructor; vm_compute; discriminate.
Defined.

(** Two cumulative series that differ by a positive factor [t] have the
    same drawdowns. *)
Section Scaled.
Variable t : Q.
Hypothesis t_pos : 0 < t.

Lemma cumprod_from_scaled (g : list Q) (a a' : Q) :
  a' == a * t -> Forall2 (fun x x' : Q => x' == x * t) (cumprod_from a g) (cumprod_from a' g).
Proof.
  revert a a'. induction g as [|x g IH]; intros a a' Ha; simpl; constructor.
  - cbv beta. rewrite Ha. ring.
  - apply IH. rewrite Ha. ring.
Qed.

Lemma Qmax_scaled (m m' c c' : Q) :
  m' == m * t -> c' == c * t -> Qmax m' c' == Qmax m c * t.
Proof.
  intros Hm Hc.
  destruct (Q.max_spec m c) as [[H1 ->]|[H1 ->]],
           (Q.max_spec m' c') as [[H2 ->]|[H2 ->]]; try done.
  - rewrite Hm, Hc in H2. nra.
  - rewrite Hm, Hc in H2. nra.
Qed.

Lemma expanding_max_from_scaled (cs cs' : list Q) (m m' : Q) :
  m' == m * t -> Forall2 (fun x x' : Q => x' == x * t) cs cs' ->
  Forall2 (fun x x' : Q => x' == x * t) (expanding_max_from m cs) (expanding_max_from m' cs').
Proof.
  intros Hm Hcs. revert m m' Hm.
  induction Hcs as [|c c' cs cs' Hc _ IH]; intros m m' Hm; simpl; constructor.
  - by apply Qmax_scaled.
  - apply IH. by apply Qmax_scaled.
Qed.

Lemma drawdown_entry_scaled (c c' m m' : Q) :
  c' == c * t -> m' == m * t ->
  option_Forall2 Qeq (drawdown_entry c m) (drawdown_entry c' m').
Proof.
  unfold drawdown_entry. intros Hc Hm.
  destruct (Qeq_bool m 0) eqn:E.
  - apply Qeq_bool_iff in E.
    assert (Qeq_bool m' 0 = true) as -> by (apply Qeq_bool_iff; rewrite Hm, E; ring).
    constructor.
  - apply Qeq_bool_false_iff in E.
    assert (Qeq_bool m' 0 = false) as ->.
    { apply Qeq_bool_false_iff. rewrite Hm. intros H.
      apply E. apply (Qmult_integral_l t); [lra|]. rewrite <- H. ring. }
    constructor. rewrite Hc, Hm. field. split; [lra|done].
Qed.

Lemma drawdown_scaled (cs cs' ms ms' : list Q) :
  Forall2 (fun x x' : Q => x' == x * t) cs cs' -> Forall2 (fun x x' : Q => x' == x * t) ms ms' ->
  Forall2 (option_Forall2 Qeq)
    (zip_with drawdown_entry cs ms) (zip_with drawdown_entry cs' ms').
Proof.
  intros Hcs. revert ms ms'.
  induction Hcs as [|c c' cs cs' Hc _ IH]; intros ms ms' Hms; simpl; [constructor|].
  destruct Hms as [|m m' ms ms' Hm Hms]; [constructor|].
  constructor; [by apply drawdown_entry_scaled | by apply IH].
Qed.

End Scaled.

Lemma Qmin_Qeq (x x' y y' : Q) : x == x' -> y == y' -> Qmin x y == Qmin x' y'.
Proof.
  intros Hx Hy.
  destruct (Q.min_spec x y) as [[H1 ->]|[H1 ->]],
           (Q.min_spec x' y') as [[H2 ->]|[H2 ->]]; try done; lra.
Qed.

Lemma foldl_Qmin_Qeq (l l' : list Q) (x x' : Q) :
  x == x' -> Forall2 Qeq l l' -> foldl Qmin x l == foldl Qmin x' l'.
Proof.
  intros Hx Hl. revert x x' Hx.
  induction Hl as [|y y' l l' Hy _ IH]; intros x x' Hx; simpl; [done|].
  apply IH. by apply Qmin_Qeq.
Qed.

Lemma dropna_Qeq (s s' : Series) :
  Forall2 (option_Forall2 Qeq) s s' -> Forall2 Qeq (dropna s) (dropna s').
Proof.
  unfold dropna. induction 1 as [|e e' s s' He _ IH]; simpl; [constructor|].
  destruct He; simpl; [by constructor | done].
Qed.

Lemma series_min_Qeq (s s' : Series) :
  Forall2 (option_Forall2 Qeq) s s' ->
  option_Forall2 Qeq (series_min s) (series_min s').
Proof.
  intros H. apply dropna_Qeq in H. unfold series_min.
  destruct H as [|x x' l l' Hx Hl]; constructor.
  by apply foldl_Qmin_Qeq.
Qed.

(** X17: The maximum drawdown does not depend on the first return of the
    series, as long as that return is above -100%: the first cumulative
    value is its own running maximum, so a loss in the first period is
    never counted. *)
Theorem max_drawdown_ignores_first_return (r r' : Q) (l : list Q) :
  -1 < r -> -1 < r' ->
  option_Forall2 Qeq
    (RiskMetrics.calculate_max_drawdown {| RiskMetrics.returns := r :: l |})
    (RiskMetrics.calculate_max_drawdown {| RiskMetrics.returns := r' :: l |}).
Proof.
  intros Hr Hr'. unfold RiskMetrics.calculate_max_drawdown. simpl RiskMetrics.returns.
  destruct (Nat.eqb_spec (length (r :: l)) 0) as [E|_]; [done|].
  destruct (Nat.eqb_spec (length (r' :: l)) 0) as [E|_]; [done|].
  rewrite !fmap_cons. unfold cumprod. fold cumprod_from.
  unfold expanding_max. fold expanding_max_from.
  set (g := (fun x => 1 + x) <$> l).
  set (t := (1 + r') / (1 + r)).
  assert (0 < t) as Ht by (apply Qlt_shift_div_l; lra).
  assert (1 + r' == (1 + r) * t) as Hfirst by (subst t; field; lra).
  assert (Forall2 (fun x x' => x' == x * t)
            ((1 + r) :: cumprod_from (1 + r) g) ((1 + r') :: cumprod_from (1 + r') g))
    as Hcum.
  { constructor; [done|]. by apply cumprod_from_scaled. }
  assert (Forall2 (fun x x' => x' == x * t)
            ((1 + r) :: expanding_max_from (1 + r) (cumprod_from (1 + r) g))
            ((1 + r') :: expanding_max_from (1 + r') (cumprod_from (1 + r') g)))
    as Hmax.
  { constructor; [done|]. apply expanding_max_from_scaled; [done|done|].
    by apply cumprod_from_scaled. }
  pose proof (series_min_Qeq _ _ (drawdown_scaled t Ht _ _ _ _ Hcum Hmax)) as Hmin.
  destruct Hmin as [v v' Hv|]; simpl; constructor. by rewrite Hv.
Qed.

Lemma max_drawdown_ignores_first_return_witness :
  option_Forall2 Qeq
    (RiskMetrics.calculate_max_drawdown
       {| RiskMetrics.returns := [-1 # 2; 1 # 10; -1 # 5] |})
    (RiskMetrics.calculate_max_drawdown
       {| RiskMetrics.returns := [3 # 10; 1 # 10; -1 # 5] |}).
Proof.
  apply max_drawdown_ignores_first_return; reflexivity.
Defined.

End RiskMetricsMore.

Module BacktestReport.
Import Backtester BacktesterMetrics BacktesterProofs BacktesterMore.
Import risk_metrics RiskMetricsProofs RiskMetricsMore.
Local Open Scope Q_scope.

Lemma column_constant (df : DataFrame) (c : string) (x : Q) :
  (forall t, (t < length df)%nat ->
     exists row, df !! t = Some row /\ row !! c = Some x) ->
  column df c = replicate (length df) x.
Proof.
  unfold column. induction df as [|r df IH]; intros H; [done|].
  destruct (H 0%nat) as (row & [= <-] & Hx); [simpl; lia|].
  cbn. rewrite Hx. cbn. f_equal. apply IH.
  intros t Ht. apply (H (S t)). simpl. lia.
Qed.

Lemma pct_change_from_constant (x : Q) (k : nat) :
  Qeq_bool x 0 = false ->
  pct_change_from x (replicate k x) = replicate k (Some (x / x - 1)).
Proof.
  intros Hx. induction k as [|k IH]; simpl; [done|]. by rewrite Hx, IH.
Qed.

Lemma table_length cfg data price_column out :
  run cfg data price_column = Ok out -> length (table out) = length data.
Proof.
  intros Hrun. apply run_final in Hrun as [Hfinal ->].
  destruct (run_prefix_frame _ _ _ _ _ Hfinal) as (Hres & Heq & _).
  rewrite init_results_length in Hres.
  unfold set_column. rewrite length_zip_with. lia.
Qed.

(** X18: For a run of at least three bars in which every signal is 0,
    every bar has a price and the initial capital is not 0,
    [get_performance_metrics] on the result of [run] returns a full dict
    in which the Sharpe, Sortino and Calmar ratios, the maximum
    drawdown, VaR, CVaR, the volatility, the annual return and the total
    return are 0, with no trade and a win rate of 0. *)
Theorem flat_run_has_zero_metrics
    (cfg : Config) (data : DataFrame) (price_column : string) :
  (forall i, signal_at (generate_signals (strategy cfg) data) i == 0) ->
  Forall (fun r : gmap string Q => is_Some (r !! price_column)) data ->
  (3 <= length data)%nat ->
  ~ initial_capital cfg == 0 ->
  exists out m,
    run cfg data price_column = Ok out /\
    get_performance_metrics cfg (trades (final out)) (Backtester.returns out)
      (column (table out) "portfolio_value") = Ok (Some m) /\
    RiskMetrics.sharpe_ratio (risk m) = Some 0%R /\
    RiskMetrics.sortino_ratio (risk m) = Some 0%R /\
    option_Forall2 Qeq (RiskMetrics.max_drawdown (risk m)) (Some 0) /\
    RiskMetrics.calmar_ratio (risk m) = Some 0 /\
    RiskMetrics.var_95 (risk m) == 0 /\
    RiskMetrics.cvar_95 (risk m) == 0 /\
    RiskMetrics.volatility (risk m) = Some 0%R /\
    option_Forall2 Qeq (RiskMetrics.annual_return (risk m)) (Some 0) /\
    option_Forall2 Qeq (total_return m) (Some 0) /\
    num_trades m = 0%nat /\
    win_rate m = 0.
Proof.
  intros Hflat Hcol Hlen Hinit.
  destruct (flat_run cfg data price_column Hflat Hcol)
    as (out & Hrun & Htr & _ & _ & _ & Hrows).
  exists out.
  set (x := initial_capital cfg) in *.
  assert (Qeq_bool x 0 = false) as Hx by by apply Qeq_bool_false_iff.
  assert (column (table out) "portfolio_value" = replicate (length data) x) as Hpv.
  { rewrite <- (table_length _ _ _ _ Hrun). apply column_constant.
    rewrite (table_length _ _ _ _ Hrun). intros t Ht.
    destruct (Hrows t Ht) as (row & ? & _ & ? & _). eauto. }
  destruct (length data) as [|[|[|n]]] eqn:Hn; [lia|lia|lia|].
  set (c := x / x - 1).
  assert (c == 0) as Hc by (subst c; field; by apply Qeq_bool_false_iff).
  assert (Backtester.returns out = None :: replicate (S (S n)) (Some c)) as Hret.
  { unfold run in Hrun. apply bind_Ok_inv in Hrun as (st & _ & [= <-]).
    simpl in *. rewrite Hpv.
    change (replicate (S (S (S n))) x) with (x :: replicate (S (S n)) x).
    unfold pct_change. cbv beta match.
    exact (f_equal (cons None) (pct_change_from_constant x (S (S n)) Hx)). }
  unfold get_performance_metrics. fold x. rewrite Hret, Hpv, Htr.
  change (dropna (None :: replicate (S (S n)) (Some c)))
    with (dropna (replicate (S (S n)) (Some c))).
  rewrite dropna_replicate_Some.
  set (l := replicate (S (S n)) c).
  assert (Forall (fun r => r == 0) l) as Hzero by (apply Forall_replicate; exact Hc).
  unfold RiskMetrics.__init__. rewrite dropna_Some.
  destruct (metrics_never_raise l 0 252) as (v & cv & -> & Hv & Hcv).
  rewrite bind_Ok.
  assert (last (replicate (S (S (S n))) x) = Some x) as ->.
  { rewrite replicate_S_end. apply last_snoc. }
  rewrite bind_Ok, Hx. cbv zeta.
  eexists. split; [exact Hrun|]. split; [reflexivity|].
  cbn [risk total_return num_trades win_rate length
       RiskMetrics.sharpe_ratio RiskMetrics.sortino_ratio RiskMetrics.max_drawdown
       RiskMetrics.calmar_ratio RiskMetrics.var_95 RiskMetrics.cvar_95
       RiskMetrics.volatility RiskMetrics.annual_return].
  destruct (constant_series_ratios (S (S n)) c 0 252) as [Hsharpe Hsortino]; [lia|].
  destruct (var_cvar_bounds (Some <$> l) (95 # 100) 0) as (v' & cv' & Hv' & Hcv' & ? & ?);
    [done | done | done | |].
  { rewrite dropna_Some. eapply Forall_impl; [exact Hzero|].
    intros r Hr. cbv beta in *. rewrite Hr. done. }
  rewrite Hv in Hv'. rewrite Hcv in Hcv'. injection Hv' as <-. injection Hcv' as <-.
  destruct (max_drawdown_of_gains l) as (d & Hd & Hd0).
  { eapply Forall_impl; [exact Hzero|]. intros r Hr. cbv beta in *. lra. }
  split; [exact Hsharpe|]. split; [exact Hsortino|].
  split; [rewrite Hd; by constructor|].
  split.
  { apply calmar_of_gains. eapply Forall_impl; [exact Hzero|].
    intros r Hr. cbv beta in *. lra. }
  split; [lra|]. split; [lra|].
  split.
  { subst l. rewrite std_replicate by lia. simpl. f_equal. lra. }
  split.
  { subst l. change (replicate (S (S n)) c) with (c :: replicate (S n) c).
    unfold mean. change (c :: replicate (S n) c) with (replicate (S (S n)) c).
    unfold fmap, option_fmap, option_map. constructor.
    rewrite sum_replicate, count_replicate, Hc. unfold Qdiv. ring. }
  split; [constructor; fold c; rewrite Hc; ring|].
  by split.
Qed.

Lemma flat_run_has_zero_metrics_witness :
  exists out m,
    run idle_cfg three_bars "close" = Ok out /\
    get_performance_metrics idle_cfg (trades (final out)) (Backtester.returns out)
      (column (table out) "portfolio_value") = Ok (Some m) /\
    RiskMetrics.sharpe_ratio (risk m) = Some 0%R /\
    RiskMetrics.volatility (risk m) = Some 0%R /\
    option_Forall2 Qeq (total_return m) (Some 0) /\
    num_trades m = 0%nat.
Proof.
  destruct (flat_run_has_zero_metrics idle_cfg three_bars "close")
    as (out & m & H1 & H2 & H3 & _ & _ & _ & _ & _ & H4 & _ & H5 & H6 & _).
  - intros [|[|[|i]]]; reflexivity.
  - repeat constructor; eexists; reflexivity.
  - simpl. lia.
  - unfold Qeq. simpl. lia.
  - exists out, m. repeat split; assumption.
Defined.

End BacktestReport.

Module PortfolioOptimizerMore.
Import PortfolioOptimizer PortfolioPerformance PortfolioOptimizerProofs.
Local Open Scope R_scope.

Lemma Rsum_nonneg (l : list R) : Forall (fun x => 0 < x) l -> 0 <= Rsum l.
Proof.
  induction 1 as [|x l Hx _ IH]; [unfold Rsum; simpl; lra|].
  rewrite Rsum_cons. lra.
Qed.

Lemma Rsum_scaled (l : list R) (d : R) :
  Rsum ((fun v => v / d) <$> l) = Rsum l / d.
Proof.
  induction l as [|x l IH].
  - unfold Rsum. simpl. lra.
  - rewrite fmap_cons, !Rsum_cons, IH. lra.
Qed.

Lemma member_le_Rsum (l : list R) (i : nat) (a : R) :
  Forall (fun x => 0 < x) l -> l !! i = Some a -> a <= Rsum l.
Proof.
  intros Hl Ha. rewrite (Rsum_delete l i a Ha).
  pose proof (Rsum_nonneg (delete i l) (Forall_delete _ _ _ Hl)). lra.
Qed.

Lemma inverse_volatilities_positive (cov_matrix : Matrix) :
  Forall (fun s => 0 < s) (volatilities cov_matrix) ->
  Forall (fun x => 0 < x) ((fun v => 1 / v) <$> volatilities cov_matrix).
Proof.
  intros H. apply Forall_fmap. eapply Forall_impl; [exact H|].
  intros s Hs. simpl. apply Rdiv_lt_0_compat; lra.
Qed.

(** X19: When [risk_parity_weights] returns on at least one asset and
    every volatility is positive, the weights are numbers strictly above
    0 and at most 1, and they sum to 1. *)
Theorem risk_parity_weights_sum_to_one
    (returns : ReturnsMatrix) (cov_matrix : Matrix) (w : list (option R)) :
  calculate_covariance_matrix returns = Some cov_matrix ->
  risk_parity_weights returns = Ok w ->
  cov_matrix <> [] ->
  Forall (fun s => 0 < s) (volatilities cov_matrix) ->
  exists ws,
    w = Some <$> ws /\
    Rsum ws = 1 /\
    Forall (fun x => 0 < x /\ x <= 1) ws.
Proof.
  intros Hcov Hw Hne Hpos.
  rewrite (risk_parity_weights_Ok _ _ _ Hcov Hw).
  eexists. split; [reflexivity|].
  unfold inverse_volatility_weights. cbv zeta.
  set (inv_vols := (fun v => 1 / v) <$> volatilities cov_matrix).
  pose proof (inverse_volatilities_positive _ Hpos) as Hinv. fold inv_vols in Hinv.
  assert (0 < Rsum inv_vols) as Hsum.
  { apply Rsum_pos; [|done]. subst inv_vols. unfold volatilities, diag.
    destruct cov_matrix; [done|]. discriminate. }
  split.
  - rewrite Rsum_scaled. field. lra.
  - apply Forall_fmap. apply Forall_lookup. intros i a Ha. simpl.
    rewrite Forall_lookup in Hinv. pose proof (Hinv i a Ha).
    pose proof (member_le_Rsum inv_vols i a ltac:(by apply Forall_lookup) Ha).
    split.
    + apply Rdiv_lt_0_compat; lra.
    + apply (Rmult_le_reg_r (Rsum inv_vols)); [lra|].
      unfold Rdiv. rewrite Rmult_assoc, Rinv_l by lra. lra.
Qed.

Lemma risk_parity_weights_sum_to_one_witness :
  exists ws,
    risk_parity_weights pair_calm = Ok (Some <$> ws) /\
    Rsum ws = 1 /\
    Forall (fun x => 0 < x /\ x <= 1) ws.
Proof.
  assert (calculate_covariance_matrix pair_calm = Some pair_calm_cov) as Hc
    by (vm_compute; reflexivity).
  assert (exists m, inv pair_calm_cov = Ok m) as [m Hi]
    by (eexists; vm_compute; reflexivity).
  pose proof (risk_parity_weights_computed _ _ _ Hc Hi) as Hw.
  destruct (risk_parity_weights_sum_to_one pair_calm pair_calm_cov _ Hc Hw)
    as (ws & Heq & Hsum & Hall).
  - discriminate.
  - repeat constructor; apply sqrt_Q2R_pos; reflexivity.
  - exists ws. rewrite <- Heq. by repeat split.
Defined.

(** X20: When [risk_parity_weights] returns and every volatility is
    positive, of two assets the one with the strictly smaller volatility
    gets the strictly larger weight. *)
Theorem risk_parity_gives_more_weight_to_calmer_asset
    (returns : ReturnsMatrix) (cov_matrix : Matrix) (w : list (option R))
    (i j : nat) (si sj : R) :
  calculate_covariance_matrix returns = Some cov_matrix ->
  risk_parity_weights returns = Ok w ->
  Forall (fun s => 0 < s) (volatilities cov_matrix) ->
  volatilities cov_matrix !! i = Some si ->
  volatilities cov_matrix !! j = Some sj ->
  si < sj ->
  exists xi xj,
    w !! i = Some (Some xi) /\ w !! j = Some (Some xj) /\ xj < xi.
Proof.
  intros Hcov Hw Hpos Hi Hj Hlt.
  rewrite (risk_parity_weights_Ok _ _ _ Hcov Hw).
  unfold inverse_volatility_weights. cbv zeta.
  set (inv_vols := (fun v => 1 / v) <$> volatilities cov_matrix).
  rewrite !list_lookup_fmap. subst inv_vols. rewrite !list_lookup_fmap, Hi, Hj. simpl.
  eexists _, _. split; [reflexivity|]. split; [reflexivity|].
  set (inv_vols := (fun v => 1 / v) <$> volatilities cov_matrix).
  assert (0 < si) as Hsi by (rewrite Forall_lookup in Hpos; exact (Hpos _ _ Hi)).
  assert (0 < Rsum inv_vols) as Hsum.
  { apply Rsum_pos; [|by apply inverse_volatilities_positive].
    subst inv_vols. intros E. apply (f_equal length) in E.
    rewrite length_fmap in E. apply lookup_lt_Some in Hi. simpl in E. lia. }
  apply Rmult_lt_compat_r; [by apply Rinv_0_lt_compat|].
  unfold Rdiv. rewrite !Rmult_1_l. apply Rinv_lt_contravar; [nra|done].
Qed.

Lemma risk_parity_gives_more_weight_to_calmer_asset_witness :
  exists xi xj,
    (Some <$> inverse_volatility_weights pair_wild_cov) !! 0%nat = Some (Some xi) /\
    (Some <$> inverse_volatility_weights pair_wild_cov) !! 1%nat = Some (Some xj) /\
    xj < xi.
Proof.
  assert (calculate_covariance_matrix pair_wild = Some pair_wild_cov) as Hc
    by (vm_compute; reflexivity).
  assert (exists m, inv pair_wild_cov = Ok m) as [m Hi]
    by (eexists; vm_compute; reflexivity).
  pose proof (risk_parity_weights_computed _ _ _ Hc Hi) as Hw.
  apply (risk_parity_gives_more_weight_to_calmer_asset pair_wild pair_wild_cov _ 0 1
           (sqrt (Q2R (nth 0 (diag pair_wild_cov) 0%Q)))
           (sqrt (Q2R (nth 1 (diag pair_wild_cov) 0%Q))) Hc Hw).
  - repeat constructor; apply sqrt_Q2R_pos; reflexivity.
  - reflexivity.
  - reflexivity.
  - apply sqrt_Q2R_lt; [unfold Qle; simpl; lia | reflexivity].
Defined.

(** *** A single asset *)

Local Open Scope Q_scope.

Lemma po_sum_cons (x : Q) (l : list Q) :
  PortfolioOptimizer.sum (x :: l) == x + PortfolioOptimizer.sum l.
Proof.
  unfold PortfolioOptimizer.sum. simpl.
  rewrite RiskMetricsProofs.foldl_Qplus_acc. ring.
Qed.

Lemma po_sum_nonneg (l : list Q) :
  Forall (fun x => 0 <= x) l -> 0 <= PortfolioOptimizer.sum l.
Proof.
  induction 1 as [|x l Hx _ IH]; [unfold PortfolioOptimizer.sum; simpl; lra|].
  rewrite po_sum_cons. lra.
Qed.

Lemma variance_nonneg (x : list Q) : (2 <= length x)%nat -> 0 <= covariance x x.
Proof.
  intros Hlen. unfold covariance. rewrite zip_with_diag.
  apply Qle_shift_div_l.
  - unfold PortfolioOptimizer.count.
    assert (inject_Z 2 <= inject_Z (Z.of_nat (length x))) by (rewrite <- Zle_Qle; lia).
    change (inject_Z 2) with 2 in *. lra.
  - rewrite Qmult_0_l. apply po_sum_nonneg, Forall_fmap, Forall_true.
    intros a. unfold compose. cbv beta.
    match goal with |- 0 <= ?d * ?d => generalize d end. intros d. nra.
Qed.

Lemma covariance_matrix_single (x : list Q) :
  (2 <= length x)%nat ->
  calculate_covariance_matrix [x] = Some [[covariance x x * 252]].
Proof.
  intros Hlen. unfold calculate_covariance_matrix. simpl.
  destruct (Nat.ltb_spec (length x) 2); [lia|]. done.
Qed.

Lemma inv_single (v : Q) :
  inv [[v]] = if Qeq_bool v 0 then Raise LinAlgError else Ok [[1 / v]].
Proof.
  unfold inv. simpl. by destruct (Qeq_bool v 0).
Qed.

(** X21: For one asset with at least two returns, [risk_parity_weights]
    gives it the weight 1 when its sample variance is not 0, and raises
    [LinAlgError] when it is 0. *)
Theorem single_asset_gets_all_weight_or_raises (x : list Q) :
  (2 <= length x)%nat ->
  (~ covariance x x == 0 -> risk_parity_weights [x] = Ok [Some 1%R]) /\
  (covariance x x == 0 -> risk_parity_weights [x] = Raise LinAlgError).
Proof.
  intros Hlen. unfold risk_parity_weights.
  rewrite (covariance_matrix_single x Hlen), inv_single.
  pose proof (variance_nonneg x Hlen) as Hvar.
  split; intros Hv.
  - assert (0 < covariance x x * 252) as Hpos.
    { assert (0 < covariance x x); [|lra].
      apply Qle_lteq in Hvar as [?|E]; [done|]. exfalso. apply Hv. by symmetry. }
    assert (Qeq_bool (covariance x x * 252) 0 = false) as ->
      by (apply Qeq_bool_false_iff; lra).
    unfold inverse_volatility_weights, volatilities, diag, Rsum. simpl.
    pose proof (sqrt_Q2R_pos _ Hpos) as Hs.
    do 3 f_equal. field. lra.
  - assert (Qeq_bool (covariance x x * 252) 0 = true) as ->
      by (apply Qeq_bool_iff; rewrite Hv; ring).
    done.
Qed.

Lemma single_asset_gets_all_weight_or_raises_witness :
  risk_parity_weights [[0; 2]] = Ok [Some 1%R] /\
  risk_parity_weights [[1; 1; 1]] = Raise LinAlgError.
Proof.
  split.
  - apply (single_asset_gets_all_weight_or_raises [0; 2]); [simpl; lia|].
    intros H. vm_compute in H. discriminate.
  - apply (single_asset_gets_all_weight_or_raises [1; 1; 1]); [simpl; lia|].
    vm_compute. reflexivity.
Defined.

(** *** [portfolio_performance] *)

Lemma sum_times_unit (a : list Q) (k i : nat) :
  PortfolioOptimizer.sum
    (zip_with Qmult a ((fun j => if (i =? j)%nat then 1 else 0) <$> seq k (length a)))
  == if ((k <=? i) && (i <? k + length a))%nat then nth (i - k) a 0 else 0.
Proof.
  revert k. induction a as [|x a IH]; intros k.
  - unfold PortfolioOptimizer.sum. simpl.
    destruct ((k <=? i)%nat && (i <? k + 0)%nat) eqn:E; [|done].
    apply andb_true_iff in E as [E1 E2].
    apply Nat.leb_le in E1. apply Nat.ltb_lt in E2. lia.
  - simpl length. simpl seq. rewrite fmap_cons. simpl zip_with.
    rewrite po_sum_cons, (IH (S k)).
    destruct (Nat.eqb_spec i k) as [->|Hne].
    + rewrite Nat.leb_refl, Nat.sub_diag.
      assert ((S k <=? k)%nat = false) as -> by (apply Nat.leb_gt; lia).
      assert ((k <? k + S (length a))%nat = true) as -> by (apply Nat.ltb_lt; lia).
      cbn [andb nth]. ring.
    + assert ((i <? S k + length a)%nat = (i <? k + S (length a))%nat) as ->
        by (f_equal; lia).
      destruct (Nat.leb_spec k i) as [Hki|Hki].
      * assert ((S k <=? i)%nat = true) as -> by (apply Nat.leb_le; lia).
        cbn [andb]. destruct (i <? k + S (length a))%nat.
        -- replace (i - k)%nat with (S (i - S k)) by lia. cbn [nth]. ring.
        -- ring.
      * assert ((S k <=? i)%nat = false) as -> by (apply Nat.leb_gt; lia).
        cbn [andb]. ring.
Qed.

Lemma unit_times_sum (a : list Q) (k i : nat) :
  PortfolioOptimizer.sum
    (zip_with Qmult ((fun j => if (i =? j)%nat then 1 else 0) <$> seq k (length a)) a)
  == if ((k <=? i) && (i <? k + length a))%nat then nth (i - k) a 0 else 0.
Proof.
  rewrite <- sum_times_unit. clear.
  generalize (seq k (length a)). intros js. revert js.
  induction a as [|x a IH]; intros [|j js]; try reflexivity.
  rewrite !fmap_cons. cbn [zip_with]. rewrite !po_sum_cons, IH. ring.
Qed.

Lemma all_in_length (n i : nat) : length (all_in n i) = n.
Proof. unfold all_in, identity_row. by rewrite length_fmap, length_seq. Qed.

(** X22: For a square covariance matrix and as many expected returns,
    [portfolio_performance] of the portfolio that is all in asset [i]
    returns the expected return of asset [i] and the square root of its
    variance, the entry [i] of the diagonal (NaN when that entry is
    negative). *)
Theorem all_in_one_asset_has_its_return_and_volatility
    (i : nat) (expected_returns : list Q) (cov_matrix : Matrix) :
  (i < length cov_matrix)%nat ->
  length expected_returns = length cov_matrix ->
  Forall (fun row : list Q => length row = length cov_matrix) cov_matrix ->
  exists portfolio_return portfolio_volatility,
    portfolio_performance (all_in (length cov_matrix) i) expected_returns cov_matrix
      = Ok (portfolio_return, portfolio_volatility) /\
    portfolio_return == nth i expected_returns 0 /\
    portfolio_volatility =
      let variance := nth i (nth i cov_matrix []) 0 in
      if Qlt_bool variance 0 then None else Some (sqrt (Q2R variance)).
Proof.
  intros Hi Her Hrows. set (n := length cov_matrix) in *.
  unfold portfolio_performance, multiply, matvec, dot.
  rewrite all_in_length, Her, Nat.eqb_refl, bind_Ok.
  assert (forallb (fun row : list Q =>
            (length row =? match cov_matrix with [] => 0 | row0 :: _ => length row0 end)%nat)
            cov_matrix = true) as ->.
  { apply forallb_forall. intros row Hrow. apply Nat.eqb_eq.
    rewrite List.Forall_forall in Hrows. rewrite (Hrows _ Hrow).
    destruct cov_matrix as [|row0 rest]; [done|]. symmetry. apply Hrows. by left. }
  assert (match cov_matrix with [] => 0%nat | row0 :: _ => length row0 end = n) as ->.
  { destruct cov_matrix as [|row0 rest] eqn:E; [done|].
    rewrite List.Forall_forall in Hrows. apply Hrows. by left. }
  rewrite Nat.eqb_refl. simpl andb. cbv beta match. rewrite bind_Ok.
  rewrite length_fmap. fold n. rewrite Nat.eqb_refl, bind_Ok.
  eexists _, _. split; [reflexivity|].
  assert (forall a : list Q, length a = n ->
            PortfolioOptimizer.sum (zip_with Qmult a (all_in n i)) == nth i a 0) as Hright.
  { intros a Ha. unfold all_in, identity_row. rewrite <- Ha, sum_times_unit.
    destruct (Nat.ltb_spec i (0 + length a)); [|lia]. simpl. by rewrite Nat.sub_0_r. }
  assert (forall a : list Q, length a = n ->
            PortfolioOptimizer.sum (zip_with Qmult (all_in n i) a) == nth i a 0) as Hleft.
  { intros a Ha. unfold all_in, identity_row. rewrite <- Ha, unit_times_sum.
    destruct (Nat.ltb_spec i (0 + length a)); [|lia]. simpl. by rewrite Nat.sub_0_r. }
  split; [by apply Hright|].
  set (f := fun row : list Q => PortfolioOptimizer.sum (zip_with Qmult row (all_in n i))).
  assert (PortfolioOptimizer.sum (zip_with Qmult (all_in n i) (f <$> cov_matrix))
          == nth i (nth i cov_matrix []) 0) as Hvar.
  { rewrite Hleft by (by rewrite length_fmap).
    change 0 with (f []) at 1. change (f <$> cov_matrix) with (map f cov_matrix).
    rewrite map_nth. apply Hright.
    rewrite List.Forall_forall in Hrows. apply Hrows, nth_In. done. }
  cbv zeta.
  assert (forall a b, a == b -> Qlt_bool a 0 = Qlt_bool b 0) as Hlt.
  { intros a b E. unfold Qlt_bool. f_equal.
    destruct (Qle_bool 0 a) eqn:Ea, (Qle_bool 0 b) eqn:Eb; try done.
    - apply Qle_bool_iff in Ea. rewrite E in Ea. apply Qle_bool_iff in Ea. congruence.
    - apply Qle_bool_iff in Eb. rewrite <- E in Eb. apply Qle_bool_iff in Eb. congruence. }
  rewrite (Hlt _ _ Hvar). destruct (Qlt_bool _ 0); [done|].
  by rewrite (Qeq_eqR _ _ Hvar).
Qed.

Lemma all_in_one_asset_has_its_return_and_volatility_witness :
  exists portfolio_return portfolio_volatility,
    portfolio_performance (all_in 2 1) [1 # 10; 2 # 10] [[4; 1]; [1; 9]]
      = Ok (portfolio_return, portfolio_volatility) /\
    portfolio_return == 2 # 10 /\
    portfolio_volatility = Some (sqrt (Q2R 9)).
Proof.
  apply (all_in_one_asset_has_its_return_and_volatility 1 [1 # 10; 2 # 10] [[4; 1]; [1; 9]]).
  - simpl. lia.
  - reflexivity.
  - repeat constructor.
Defined.

End PortfolioOptimizerMore.

(** ** Position sizing, continued *)

Module PositionSizingMore.
Import position_sizing position_sizing.KellyCriterion PositionSizingProofs.
Local Open Scope Q_scope.

Lemma py_max_0_nonpos (k : Q) : k <= 0 -> py_max 0 k = 0.
Proof.
  intros Hk. unfold py_max.
  destruct (Qlt_bool 0 k) eqn:E; [|done].
  apply Qlt_bool_iff in E. exfalso. exact (Qlt_not_le _ _ E Hk).
Qed.

Lemma zero_value_size (capital k price : Q) :
  k == 0 -> ~ price == 0 -> capital * k / price == 0.
Proof. intros Hk Hp. rewrite Hk. field. exact Hp. Qed.

(** X23: With the standard Kelly formula (no expected return or no
    volatility given) and no positive edge, [p * b <= 1 - p], the size
    is 0 at every non-zero price; the default arguments, [p = 0.5] and
    [b = 1], are such a case. *)
Theorem kelly_without_edge_takes_no_position (self : KellyCriterion.t) (capital price : Q)
    (volatility expected_return win_probability win_loss_ratio : option Q) :
  expected_return = None \/ volatility = None ->
  default (1 # 2) win_probability * default 1 win_loss_ratio
    <= 1 - default (1 # 2) win_probability ->
  ~ price == 0 ->
  exists q,
    calculate_size self capital price volatility expected_return
      win_probability win_loss_ratio = Ok (Some q) /\
    q == 0.
Proof.
  intros Hclassic Hedge Hprice.
  unfold calculate_size.
  destruct (Qeq_bool price 0) eqn:Ep; [apply Qeq_bool_iff in Ep; contradiction|].
  eexists. split; [reflexivity|].
  apply zero_value_size; [|exact Hprice].
  set (p := default (1 # 2) win_probability) in *.
  set (b := default 1 win_loss_ratio) in *.
  assert ((if Qlt_bool 0 b
           then py_min (py_max 0 ((p * b - (1 - p)) / b)) (1 # 2) * fraction self
           else 0) == 0) as Hzero.
  { destruct (Qlt_bool 0 b) eqn:Eb; [|reflexivity].
    apply Qlt_bool_iff in Eb.
    rewrite py_max_0_nonpos.
    - unfold py_min. change (Qlt_bool (1 # 2) 0) with false. cbv beta match. ring.
    - unfold Qdiv. rewrite <- (Qmult_0_l (/ b)).
      apply Qmult_le_compat_r; [lra|]. apply Qlt_le_weak, Qinv_lt_0_compat, Eb. }
  destruct Hclassic as [-> | ->]; [|destruct expected_return]; exact Hzero.
Qed.

Lemma kelly_without_edge_takes_no_position_witness :
  exists q,
    calculate_size {| fraction := 1 # 4 |} 100000 50 None None None None = Ok (Some q) /\
    q == 0.
Proof.
  apply kelly_without_edge_takes_no_position.
  - by left.
  - unfold Qle. simpl. lia.
  - unfold Qeq. simpl. lia.
Defined.

(** X24: With the standard Kelly formula, a non-negative capital and a
    non-negative [fraction], the value of the position, size times
    price, lies between 0 and [capital * 0.5 * fraction]: the cap of 50%
    is applied before the scaling by [fraction]. *)
Theorem kelly_classic_value_is_at_most_half_the_fraction
    (self : KellyCriterion.t) (capital price : Q)
    (volatility expected_return win_probability win_loss_ratio : option Q) :
  expected_return = None \/ volatility = None ->
  0 <= capital -> 0 <= fraction self -> ~ price == 0 ->
  exists q,
    calculate_size self capital price volatility expected_return
      win_probability win_loss_ratio = Ok (Some q) /\
    0 <= q * price /\
    q * price <= capital * ((1 # 2) * fraction self).
Proof.
  intros Hclassic Hcap Hf Hprice.
  unfold calculate_size.
  destruct (Qeq_bool price 0) eqn:Ep; [apply Qeq_bool_iff in Ep; contradiction|].
  eexists. split; [reflexivity|].
  set (p := default (1 # 2) win_probability) in *.
  set (b := default 1 win_loss_ratio) in *.
  set (k := if Qlt_bool 0 b
            then py_min (py_max 0 ((p * b - (1 - p)) / b)) (1 # 2) * fraction self
            else 0).
  assert (0 <= k /\ k <= (1 # 2) * fraction self) as [Hk0 Hk1].
  { unfold k. destruct (Qlt_bool 0 b).
    - split; [by apply scaled_clamp_nonneg|].
      apply Qmult_le_compat_r; [|exact Hf]. apply py_min_bounds.
    - split; [lra|]. apply Qmult_le_0_compat; [lra|exact Hf]. }
  assert (forall kelly, capital * kelly / price * price == capital * kelly) as Hvalue.
  { intros kelly. field. exact Hprice. }
  assert (match expected_return, volatility with
          | Some expected_return, Some volatility =>
              if Qlt_bool 0 volatility
              then clip (expected_return / (volatility * volatility) * fraction self)
                     0 (1 # 2)
              else 0
          | _, _ => k
          end = k) as ->.
  { destruct Hclassic as [-> | ->]; [|destruct expected_return]; reflexivity. }
  rewrite Hvalue. split.
  - by apply Qmult_le_0_compat.
  - nra.
Qed.

Lemma kelly_classic_value_is_at_most_half_the_fraction_witness :
  exists q,
    calculate_size {| fraction := 1 # 4 |} 100000 50 None None (Some (9 # 10)) (Some 2)
      = Ok (Some q) /\
    0 <= q * 50 /\
    q * 50 <= 100000 * ((1 # 2) * (1 # 4)).
Proof.
  apply (kelly_classic_value_is_at_most_half_the_fraction {| fraction := 1 # 4 |}).
  - by left.
  - unfold Qle. simpl. lia.
  - unfold Qle. simpl. lia.
  - unfold Qeq. simpl. lia.
Defined.

(** X25: With the expected return and the volatility given and a
    non-negative [fraction], the size is 0 at every non-zero price when
    the expected return is not positive or the volatility is not
    positive. *)
Theorem kelly_takes_no_position_on_nonpositive_expected_return
    (self : KellyCriterion.t) (capital price volatility expected_return : Q)
    (win_probability win_loss_ratio : option Q) :
  expected_return <= 0 \/ volatility <= 0 ->
  0 <= fraction self -> ~ price == 0 ->
  exists q,
    calculate_size self capital price (Some volatility) (Some expected_return)
      win_probability win_loss_ratio = Ok (Some q) /\
    q == 0.
Proof.
  intros Hcase Hf Hprice.
  unfold calculate_size.
  destruct (Qeq_bool price 0) eqn:Ep; [apply Qeq_bool_iff in Ep; contradiction|].
  eexists. split; [reflexivity|].
  apply zero_value_size; [|exact Hprice].
  destruct (Qlt_bool 0 volatility) eqn:Ev; [|reflexivity].
  apply Qlt_bool_iff in Ev.
  destruct Hcase as [Her|Hv]; [|exfalso; exact (Qlt_not_le _ _ Ev Hv)].
  assert (expected_return / (volatility * volatility) * fraction self <= 0) as Hx.
  { assert (expected_return / (volatility * volatility) <= 0) as Hk.
    { unfold Qdiv. rewrite <- (Qmult_0_l (/ (volatility * volatility))).
      apply Qmult_le_compat_r; [exact Her|].
      apply Qlt_le_weak, Qinv_lt_0_compat. nra. }
    nra. }
  revert Hx. generalize (expected_return / (volatility * volatility) * fraction self).
  intros x Hx. unfold clip, py_min, py_max.
  destruct (Qlt_bool x 0) eqn:E0.
  - change (Qlt_bool (1 # 2) 0) with false. reflexivity.
  - apply Qlt_bool_false_iff in E0.
    destruct (Qlt_bool (1 # 2) x) eqn:E1.
    + apply Qlt_bool_iff in E1. lra.
    + lra.
Qed.

Lemma kelly_takes_no_position_on_nonpositive_expected_return_witness :
  exists q,
    calculate_size {| fraction := 1 # 4 |} 100000 50 (Some (2 # 10)) (Some (- (5 # 100)))
      None None = Ok (Some q) /\
    q == 0.
Proof.
  apply kelly_takes_no_position_on_nonpositive_expected_return.
  - left. unfold Qle. simpl. lia.
  - unfold Qle. simpl. lia.
  - unfold Qeq. simpl. lia.
Defined.

(** *** [RiskParity.calculate_size] *)

Import position_sizing_more.
Local Open Scope R_scope.

Lemma sqrt_252_gt_15 : 15 < sqrt 252.
Proof.
  rewrite <- (sqrt_square 15) at 1 by lra.
  apply sqrt_lt_1; lra.
Qed.

(** X26: With a positive capital, a positive price, an annualized
    volatility above 0 and at most 1.5, and no portfolio volatility
    given, the value of the position [RiskParity.calculate_size]
    returns, size times price, is strictly more than the capital. *)
Theorem risk_parity_size_exceeds_capital
    (self : RiskParity.t) (capital price volatility : R) (expected_return : option R) :
  0 < capital -> 0 < price -> 0 < volatility <= 3 / 2 ->
  exists q,
    RiskParity.calculate_size self capital price (Some volatility) expected_return None
      = Some q /\
    capital < q * price.
Proof.
  intros Hcap Hprice [Hv0 Hv1].
  unfold RiskParity.calculate_size.
  destruct (Req_dec_T volatility 0) as [E|_]; [lra|].
  destruct (Req_dec_T price 0) as [E|_]; [lra|].
  eexists. split; [reflexivity|].
  pose proof sqrt_252_gt_15 as Hs.
  replace (capital * (1 / (volatility / sqrt 252) * 1) * (1 / 10) / price * price)
    with (capital * (sqrt 252 / (10 * volatility))) by (field; lra).
  rewrite <- (Rmult_1_r capital) at 1.
  apply Rmult_lt_compat_l; [exact Hcap|].
  apply Rmult_lt_reg_r with (10 * volatility); [lra|].
  unfold Rdiv. rewrite Rmult_assoc, Rinv_l by lra. lra.
Qed.

Lemma risk_parity_size_exceeds_capital_witness :
  exists q,
    RiskParity.calculate_size {| RiskParity.target_volatility := 15 / 100 |}
      100000 50 (Some (3 / 10)) None None = Some q /\
    100000 < q * 50.
Proof.
  apply risk_parity_size_exceeds_capital; lra.
Defined.

(** X27: For a non-zero volatility, a non-zero factor [k] and a non-zero
    price, multiplying the volatility by [k] divides the size
    [RiskParity.calculate_size] returns by [k], all other arguments
    being equal. *)
Theorem risk_parity_size_is_inversely_proportional_to_volatility
    (self : RiskParity.t) (capital price volatility k : R)
    (expected_return portfolio_volatility : option R) :
  volatility <> 0 -> k <> 0 -> price <> 0 ->
  exists q,
    RiskParity.calculate_size self capital price (Some volatility)
      expected_return portfolio_volatility = Some q /\
    RiskParity.calculate_size self capital price (Some (k * volatility))
      expected_return portfolio_volatility = Some (q / k).
Proof.
  intros Hv Hk Hprice.
  unfold RiskParity.calculate_size.
  destruct (Req_dec_T volatility 0) as [E|_]; [contradiction|].
  destruct (Req_dec_T (k * volatility) 0) as [E|_].
  { apply Rmult_integral in E. tauto. }
  destruct (Req_dec_T price 0) as [E|_]; [contradiction|].
  eexists. split; [reflexivity|].
  f_equal. field. pose proof sqrt_252_gt_15. repeat split; lra.
Qed.

Lemma risk_parity_size_is_inversely_proportional_to_volatility_witness :
  exists q,
    RiskParity.calculate_size {| RiskParity.target_volatility := 15 / 100 |}
      100000 50 (Some (3 / 10)) None (Some (1 / 5)) = Some q /\
    RiskParity.calculate_size {| RiskParity.target_volatility := 15 / 100 |}
      100000 50 (Some (2 * (3 / 10))) None (Some (1 / 5)) = Some (q / 2).
Proof.
  apply risk_parity_size_is_inversely_proportional_to_volatility; lra.
Defined.

End PositionSizingMore.
